(** * kube-scan: a shallow embedding of [kube-scan.py]

    The script lists the container images of a cluster ([kubectl]), scans
    each image with [grype], buckets the findings by severity, prints a
    cumulative table and writes a per-image CSV file.

    Python strings are modelled as [string] (the UTF-8 bytes of the text),
    Python [int] as [Z], [dict]/[defaultdict] with string keys as
    [gmap string Z], uncaught exceptions as the [Raise] branch of a small
    state-and-exception monad over the process's observable effects.
    The outside world (what a command prints and how it exits, whether a
    file can be written) is a parameter of every function that touches it.

    Not modelled: the import of [tabulate] with its installation on the
    fly, and the drawing of the grid, which is kept as an event carrying
    the headers and the rows. *)

From Stdlib Require Import ZArith Ascii String List Lia.
From stdpp Require Import base option list gmap strings sorting pretty.

Local Open Scope string_scope.
Local Open Scope Z_scope.
Local Open Scope list_scope.

(** ** Python built-ins used by the script *)

Module Py.

(** Characters that cannot be written inside a literal. *)
Definition LF : ascii := "010"%char.
Definition CR : ascii := "013"%char.
Definition TAB : ascii := "009"%char.
Definition DQUOTE : ascii := "034"%char.
Definition BACKSLASH : ascii := "092"%char.

Definition ascii_upper (c : ascii) : ascii :=
  let n := nat_of_ascii c in
  if ((97 <=? n) && (n <=? 122))%nat then ascii_of_nat (n - 32) else c.

Definition ascii_lower (c : ascii) : ascii :=
  let n := nat_of_ascii c in
  if ((65 <=? n) && (n <=? 90))%nat then ascii_of_nat (n + 32) else c.

Fixpoint lower (s : string) : string :=
  match s with
  | EmptyString => EmptyString
  | String c s' => String (ascii_lower c) (lower s')
  end.

(** [str.capitalize()]: first character upper-cased, the rest lower-cased.
    Only the ASCII letters are handled: bytes outside them are left as
    they are, where Python also changes the case of other letters.  No
    character outside ASCII has an upper case in C, H, M, L or a lower
    case among the letters of the four severity names, so the membership
    test of [summarize], the one use the script makes of it, is not
    affected; nothing else is concluded from this definition. *)
Definition capitalize (s : string) : string :=
  match s with
  | EmptyString => EmptyString
  | String c s' => String (ascii_upper c) (lower s')
  end.

(** [str.splitlines()] on the UTF-8 text.  Line boundaries: LF, CR, CR LF,
    VT, FF, FS, GS, RS, NEL (U+0085 = C2 85), LS and PS (U+2028, U+2029 =
    E2 80 A8, E2 80 A9).  [cur] is the current line, reversed. *)
Definition is_ascii_linebreak (c : ascii) : bool :=
  let n := nat_of_ascii c in
  ((n =? 10) || (n =? 11) || (n =? 12) || (n =? 13)
   || (n =? 28) || (n =? 29) || (n =? 30))%nat.

Fixpoint splitlines_go (s : string) (cur : string) (pending : bool)
  : list string :=
  match s with
  | EmptyString => if pending then [String.rev cur] else []
  | String c s' =>
      if Ascii.eqb c CR then
        match s' with
        | String c' s'' =>
            if Ascii.eqb c' LF
            then String.rev cur :: splitlines_go s'' "" false
            else String.rev cur :: splitlines_go s' "" false
        | EmptyString => [String.rev cur]
        end
      else if is_ascii_linebreak c then
        String.rev cur :: splitlines_go s' "" false
      else
        match c, s' with
        | "194"%char, String "133"%char s'' =>
            String.rev cur :: splitlines_go s'' "" false
        | "226"%char, String "128"%char (String c3 s''') =>
            if (Ascii.eqb c3 "168" || Ascii.eqb c3 "169")%char
            then String.rev cur :: splitlines_go s''' "" false
            else splitlines_go s' (String c cur) true
        | _, _ => splitlines_go s' (String c cur) true
        end
  end.

Definition splitlines (s : string) : list string := splitlines_go s "" false.

(** [filter(None, xs)] on strings keeps the truthy ones: the non-empty. *)
Definition truthy (s : string) : bool :=
  match s with EmptyString => false | _ => true end.

(** [sorted(set(xs))]: the set forgets order and multiplicity, [sorted]
    orders its elements by [<=] on [str] (code points, which on UTF-8 is
    the order of the bytes). *)
Definition set (xs : list string) : gset string := list_to_set xs.
Definition sorted (s : gset string) : list string :=
  merge_sort String.le (elements s).

(** [str(n)] for an [int]. *)
Definition str (n : Z) : string := pretty n.

(** Exceptions the script can meet. *)
Inductive exn :=
| CalledProcessError (returncode : Z)
| OSError
| ValueError
| UnicodeDecodeError
| JSONDecodeError
| AttributeError
| TypeError
| SystemExit (code : Z).

Inductive result (A : Type) :=
| Ok (a : A)
| Raise (e : exn).
Arguments Ok {A} a.
Arguments Raise {A} e.

End Py.

(** ** JSON values and [json.loads] *)

Module Json.
Import Py.

(** A decoded document.  Numbers keep their lexeme: the script never
    computes with them.  An object keeps its members in document order;
    [dict_get] gives the last binding of a key, as the [dict] built by
    the decoder does. *)
#[warnings="-register-all"]
Inductive json :=
| JNull
| JBool (b : bool)
| JNumber (lexeme : string)
| JString (s : string)
| JArray (items : list json)
| JObject (members : list (string * json)).

Fixpoint dict_get (k : string) (ms : list (string * json)) : option json :=
  match ms with
  | [] => None
  | (k', v) :: ms' =>
      match dict_get k ms' with
      | Some v' => Some v'
      | None => if String.eqb k k' then Some v else None
      end
  end.

Inductive parse_result (A : Type) :=
| Parsed (a : A) (rest : string)
| SyntaxError
| OutOfFuel.
Arguments Parsed {A} a rest.
Arguments SyntaxError {A}.
Arguments OutOfFuel {A}.

Definition is_ws (c : ascii) : bool :=
  (Ascii.eqb c " " || Ascii.eqb c TAB || Ascii.eqb c LF || Ascii.eqb c CR)%char.

Fixpoint skip_ws (s : string) : string :=
  match s with
  | String c s' => if is_ws c then skip_ws s' else s
  | EmptyString => s
  end.

(** [expect c s]: the text after [c] when [s] starts with [c]. *)
Definition expect (c : ascii) (s : string) : option string :=
  match s with
  | String c' r => if Ascii.eqb c' c then Some r else None
  | EmptyString => None
  end.

Definition is_digit (c : ascii) : bool :=
  let n := nat_of_ascii c in ((48 <=? n) && (n <=? 57))%nat.

Definition hex_val (c : ascii) : option N :=
  let n := N_of_ascii c in
  if ((48 <=? n) && (n <=? 57))%N then Some (n - 48)%N
  else if ((97 <=? n) && (n <=? 102))%N then Some (n - 87)%N
  else if ((65 <=? n) && (n <=? 70))%N then Some (n - 55)%N
  else None.

Definition hex4 (a b c d : ascii) : option N :=
  match hex_val a, hex_val b, hex_val c, hex_val d with
  | Some x, Some y, Some z, Some w =>
      Some (x * 4096 + y * 256 + z * 16 + w)%N
  | _, _, _, _ => None
  end.

(** The body of a string literal is read into units: a raw byte of the
    text, or a 16-bit unit written as a [\uXXXX] escape. *)
Inductive unit16 :=
| Raw (c : ascii)
| Esc (u : N).

Definition simple_escape (c : ascii) : option ascii :=
  if Ascii.eqb c DQUOTE then Some DQUOTE
  else if Ascii.eqb c BACKSLASH then Some BACKSLASH
  else if Ascii.eqb c "/" then Some "/"%char
  else if Ascii.eqb c "b" then Some "008"%char
  else if Ascii.eqb c "f" then Some "012"%char
  else if Ascii.eqb c "n" then Some LF
  else if Ascii.eqb c "r" then Some CR
  else if Ascii.eqb c "t" then Some TAB
  else None.

(** After the opening quote: units up to the closing quote, and the rest.
    Control characters are refused (the decoder is strict). *)
Fixpoint lex_string (s : string) : option (list unit16 * string) :=
  match s with
  | EmptyString => None
  | String c s' =>
      if Ascii.eqb c DQUOTE then Some ([], s')
      else if (nat_of_ascii c <? 32)%nat then None
      else if Ascii.eqb c BACKSLASH then
        match s' with
        | String e s'' =>
            if Ascii.eqb e "u" then
              match s'' with
              | String h1 (String h2 (String h3 (String h4 s3))) =>
                  match hex4 h1 h2 h3 h4, lex_string s3 with
                  | Some u, Some (us, rest) => Some (Esc u :: us, rest)
                  | _, _ => None
                  end
              | _ => None
              end
            else
              match simple_escape e, lex_string s'' with
              | Some c', Some (us, rest) => Some (Raw c' :: us, rest)
              | _, _ => None
              end
        | EmptyString => None
        end
      else
        match lex_string s' with
        | Some (us, rest) => Some (Raw c :: us, rest)
        | None => None
        end
  end.

Definition byte_of (n : N) : ascii := ascii_of_N n.

(** UTF-8 bytes of a code point (a lone surrogate is written in the same
    three-byte form). *)
Definition utf8 (cp : N) : list ascii :=
  (if cp <? 128 then [byte_of cp]
   else if cp <? 2048 then
     [byte_of (192 + cp / 64); byte_of (128 + cp mod 64)]
   else if cp <? 65536 then
     [byte_of (224 + cp / 4096); byte_of (128 + (cp / 64) mod 64);
      byte_of (128 + cp mod 64)]
   else
     [byte_of (240 + cp / 262144); byte_of (128 + (cp / 4096) mod 64);
      byte_of (128 + (cp / 64) mod 64); byte_of (128 + cp mod 64)])%N.

Definition is_high_surrogate (u : N) : bool := ((55296 <=? u) && (u <=? 56319))%N.
Definition is_low_surrogate (u : N) : bool := ((56320 <=? u) && (u <=? 57343))%N.

Fixpoint decode_units (us : list unit16) : list ascii :=
  match us with
  | [] => []
  | Raw c :: us' => c :: decode_units us'
  | Esc hi :: us' =>
      match us' with
      | Esc lo :: us'' =>
          if is_high_surrogate hi && is_low_surrogate lo
          then utf8 (65536 + (hi - 55296) * 1024 + (lo - 56320))%N
                 ++ decode_units us''
          else utf8 hi ++ decode_units us'
      | _ => utf8 hi ++ decode_units us'
      end
  end.

Definition scan_string (s : string) : parse_result string :=
  match lex_string s with
  | Some (us, rest) => Parsed (string_of_list_ascii (decode_units us)) rest
  | None => SyntaxError
  end.

(** Numbers, as the decoder's regular expression reads them: an optional
    minus, an integer part that is 0 or a non-zero digit followed by
    digits, then optionally a point with one digit or more, then optionally
    an exponent (e or E, an optional sign, one digit or more). *)
Fixpoint take_digits (s : string) : string * string :=
  match s with
  | String c s' =>
      if is_digit c
      then let '(ds, rest) := take_digits s' in (String c ds, rest)
      else ("", s)
  | EmptyString => ("", s)
  end.

Definition scan_int (s : string) : option (string * string) :=
  match s with
  | String c s' =>
      if Ascii.eqb c "0" then Some ("0", s')
      else if is_digit c
      then let '(ds, rest) := take_digits s' in Some (String c ds, rest)
      else None
  | EmptyString => None
  end.

Definition scan_frac (s : string) : string * string :=
  match expect "." s with
  | Some s' =>
      match take_digits s' with
      | (EmptyString, _) => ("", s)
      | (ds, rest) => (String "." ds, rest)
      end
  | None => ("", s)
  end.

Definition scan_exp (s : string) : string * string :=
  match s with
  | String e s' =>
      if (Ascii.eqb e "e" || Ascii.eqb e "E")%char then
        let sign_rest :=
          match s' with
          | String g t =>
              if (Ascii.eqb g "+" || Ascii.eqb g "-")%char
              then (String g "", t) else ("", s')
          | EmptyString => ("", s')
          end in
        match take_digits sign_rest.2 with
        | (EmptyString, _) => ("", s)
        | (ds, rest) => (String e (sign_rest.1 +:+ ds), rest)
        end
      else ("", s)
  | EmptyString => ("", s)
  end.

Definition scan_number (s : string) : option (string * string) :=
  let neg_rest :=
    match expect "-" s with
    | Some t => ("-", t)
    | None => ("", s)
    end in
  match scan_int neg_rest.2 with
  | Some (i, s2) =>
      let frac_rest := scan_frac s2 in
      let exp_rest := scan_exp frac_rest.2 in
      Some (neg_rest.1 +:+ i +:+ frac_rest.1 +:+ exp_rest.1, exp_rest.2)
  | None => None
  end.

(** [strip_prefix p s]: the text after [p] when [s] starts with [p]. *)
Fixpoint strip_prefix (p s : string) : option string :=
  match p, s with
  | EmptyString, _ => Some s
  | String a p', String b s' =>
      if Ascii.eqb a b then strip_prefix p' s' else None
  | String _ _, EmptyString => None
  end.

Definition scan_constant (s : string) : parse_result json :=
  match strip_prefix "null" s with
  | Some r => Parsed JNull r
  | None =>
  match strip_prefix "true" s with
  | Some r => Parsed (JBool true) r
  | None =>
  match strip_prefix "false" s with
  | Some r => Parsed (JBool false) r
  | None =>
  match scan_number s with
  | Some (lx, r) => Parsed (JNumber lx) r
  | None =>
  match strip_prefix "NaN" s with
  | Some r => Parsed (JNumber "NaN") r
  | None =>
  match strip_prefix "Infinity" s with
  | Some r => Parsed (JNumber "Infinity") r
  | None =>
  match strip_prefix "-Infinity" s with
  | Some r => Parsed (JNumber "-Infinity") r
  | None => SyntaxError
  end end end end end end end.

(** The recursive descent of the decoder.  [parse_value] expects its
    text to start at the value (white space already skipped). *)
Fixpoint parse_value (fuel : nat) (s : string) : parse_result json :=
  match fuel with
  | O => OutOfFuel
  | S n =>
      match s with
      | EmptyString => SyntaxError
      | String c s' =>
          if Ascii.eqb c "{" then
            match expect "}" (skip_ws s') with
            | Some r => Parsed (JObject []) r
            | None => parse_members n (skip_ws s') []
            end
          else if Ascii.eqb c "[" then
            match expect "]" (skip_ws s') with
            | Some r => Parsed (JArray []) r
            | None => parse_elements n (skip_ws s') []
            end
          else if Ascii.eqb c DQUOTE then
            match scan_string s' with
            | Parsed v r => Parsed (JString v) r
            | SyntaxError => SyntaxError
            | OutOfFuel => OutOfFuel
            end
          else scan_constant s
      end
  end
with parse_elements (fuel : nat) (s : string) (acc : list json)
  : parse_result json :=
  match fuel with
  | O => OutOfFuel
  | S n =>
      match parse_value n s with
      | Parsed v r =>
          match expect "," (skip_ws r) with
          | Some r' => parse_elements n (skip_ws r') (v :: acc)
          | None =>
              match expect "]" (skip_ws r) with
              | Some r' => Parsed (JArray (rev (v :: acc))) r'
              | None => SyntaxError
              end
          end
      | SyntaxError => SyntaxError
      | OutOfFuel => OutOfFuel
      end
  end
with parse_members (fuel : nat) (s : string) (acc : list (string * json))
  : parse_result json :=
  match fuel with
  | O => OutOfFuel
  | S n =>
      match s with
      | String c s' =>
          if Ascii.eqb c DQUOTE then
            match scan_string s' with
            | Parsed k r =>
                match expect ":" (skip_ws r) with
                | Some r' =>
                    match parse_value n (skip_ws r') with
                    | Parsed v r'' =>
                        match expect "," (skip_ws r'') with
                        | Some r3 =>
                            parse_members n (skip_ws r3) ((k, v) :: acc)
                        | None =>
                            match expect "}" (skip_ws r'') with
                            | Some r3 =>
                                Parsed (JObject (rev ((k, v) :: acc))) r3
                            | None => SyntaxError
                            end
                        end
                    | SyntaxError => SyntaxError
                    | OutOfFuel => OutOfFuel
                    end
                | None => SyntaxError
                end
            | SyntaxError => SyntaxError
            | OutOfFuel => OutOfFuel
            end
          else SyntaxError
      | EmptyString => SyntaxError
      end
  end.

(** Every recursive call but the one from [parse_elements] to
    [parse_value] has consumed a character, so twice the length bounds
    the depth. *)
Definition fuel_for (s : string) : nat := 2 * String.length s + 2.

(** [json.loads]: one value between optional white space; [None] is the
    decoder's [JSONDecodeError]. *)
Definition loads (s : string) : option json :=
  match parse_value (fuel_for s) (skip_ws s) with
  | Parsed v r =>
      match skip_ws r with
      | EmptyString => Some v
      | String _ _ => None
      end
  | SyntaxError => None
  | OutOfFuel => None
  end.

End Json.

(** ** The [csv] writer (default dialect) *)

Module Csv.
Import Py.

(** A field is quoted when it holds the delimiter, the quote character or
    a character of the line terminator; a quote inside is doubled. *)
Definition needs_quote (c : ascii) : bool :=
  (Ascii.eqb c "," || Ascii.eqb c DQUOTE || Ascii.eqb c CR || Ascii.eqb c LF)%char.

Fixpoint any_char (p : ascii → bool) (s : string) : bool :=
  match s with
  | EmptyString => false
  | String c s' => p c || any_char p s'
  end.

Fixpoint double_quotes (s : string) : string :=
  match s with
  | EmptyString => EmptyString
  | String c s' =>
      if Ascii.eqb c DQUOTE
      then String DQUOTE (String DQUOTE (double_quotes s'))
      else String c (double_quotes s')
  end.

Definition field (s : string) : string :=
  if any_char needs_quote s
  then String DQUOTE (double_quotes s +:+ String DQUOTE "")
  else s.

Fixpoint join (sep : string) (xs : list string) : string :=
  match xs with
  | [] => ""
  | [x] => x
  | x :: xs' => x +:+ sep +:+ join sep xs'
  end.

(** [writer.writerow]: the fields joined by commas, then CR LF. *)
Definition writerow (fields : list string) : string :=
  join "," (field <$> fields) +:+ String CR (String LF "").

Definition writerows (rows : list (list string)) : string :=
  foldr (λ r acc, writerow r +:+ acc) "" rows.

End Csv.

(** ** The script *)

Module KubeScan.
Import Py Json.

(** *** The outside world *)

(** What [subprocess.run(cmd, capture_output=True, text=True)] meets:
    the program could not be started; an argument cannot be passed (it
    holds a NUL byte); the program ran to an exit code but its captured
    output or error output is not text in the locale's encoding; or it
    ran to an exit code and its standard output decoded to [stdout]. *)
Inductive completed :=
| SpawnError
| BadArguments
| Undecodable (returncode : Z)
| Completed (returncode : Z) (stdout : string).

(** What opening a path for writing and writing to it gives; on a failed
    write the file is left with whatever reached it. *)
Inductive file_access :=
| Writable
| OpenFails
| WriteFails (written : string).

Record world := World {
  exec : list string → completed;
  open_w : string → file_access
}.

(** *** Observable effects *)

(** A thing printed on standard output: a line of text, or the grid table
    that [tabulate] draws from headers and rows. *)
Inductive out_event :=
| Line (s : string)
| Grid (headers : list string) (rows : list (list Z)).

Record io := Io {
  stdout_log : list out_event;
  stderr_log : list string;
  files : gmap string string
}.

Definition M (A : Type) : Type := io → result A * io.

Definition ret {A} (a : A) : M A := λ st, (Ok a, st).
Definition raise {A} (e : exn) : M A := λ st, (Raise e, st).
Definition bind {A B} (c : M A) (k : A → M B) : M B :=
  λ st, match c st with
        | (Ok a, st') => k a st'
        | (Raise e, st') => (Raise e, st')
        end.
Definition lift {A} (r : result A) : M A := λ st, (r, st).

#[local] Notation "'let!' x ':=' c 'in' k" := (bind c (λ x, k))
  (at level 10, x pattern, c at level 100, k at level 200).
#[local] Notation "c ';;' k" := (bind c (λ _, k))
  (at level 100, k at level 200, right associativity).

(** [try: body except <handled>: handler]: [handler e] is [None] for an
    exception the clause does not name. *)
Definition try_except {A} (body : M A) (handler : exn → option (M A)) : M A :=
  λ st, match body st with
        | (Ok a, st') => (Ok a, st')
        | (Raise e, st') =>
            match handler e with
            | Some h => h st'
            | None => (Raise e, st')
            end
        end.

Definition print (s : string) : M unit :=
  λ st, (Ok tt, Io (stdout_log st ++ [Line s]) (stderr_log st) (files st)).
Definition print_grid (headers : list string) (rows : list (list Z)) : M unit :=
  λ st, (Ok tt, Io (stdout_log st ++ [Grid headers rows]) (stderr_log st) (files st)).
Definition eprint (s : string) : M unit :=
  λ st, (Ok tt, Io (stdout_log st) (stderr_log st ++ [s]) (files st)).
Definition sys_exit {A} (code : Z) : M A := raise (SystemExit code).

(** [subprocess.run(cmd, capture_output=True, text=True, check=True)],
    giving [proc.stdout].  The output is decoded when the process has
    ended, before [check] looks at the exit code: undecodable output
    raises [UnicodeDecodeError] whatever the exit code. *)
Definition subprocess_run (w : world) (cmd : list string) : M string :=
  match exec w cmd with
  | SpawnError => raise OSError
  | BadArguments => raise ValueError
  | Undecodable _ => raise UnicodeDecodeError
  | Completed rc out =>
      if Z.eqb rc 0 then ret out else raise (CalledProcessError rc)
  end.

(** [with open(path, "w", newline="") as f:] followed by writes of [text]. *)
Definition write_file (w : world) (path text : string) : M unit :=
  λ st, match open_w w path with
        | Writable =>
            (Ok tt, Io (stdout_log st) (stderr_log st) (<[path := text]> (files st)))
        | OpenFails => (Raise OSError, st)
        | WriteFails written =>
            (Raise OSError,
             Io (stdout_log st) (stderr_log st) (<[path := written]> (files st)))
        end.

(** *** [get_unique_images] *)

Definition kubectl_cmd : list string :=
  ["kubectl"; "get"; "pods"; "--all-namespaces"; "-o";
   "jsonpath={range .items[*]}{range .spec.containers[*]}{.image}{"
     +:+ String DQUOTE (String BACKSLASH ("n" +:+ String DQUOTE "}{end}{end}"))].

(** [sorted(set(filter(None, lines)))] *)
Definition unique_images (lines : list string) : list string :=
  sorted (set (List.filter truthy lines)).

Definition get_unique_images (w : world) : M (list string) :=
  let! out := subprocess_run w kubectl_cmd in
  ret (unique_images (splitlines out)).

(** *** [scan_image] *)

Definition grype_cmd (image : string) : list string :=
  ["grype"; image; "-o"; "json"].

Definition json_loads (s : string) : M json :=
  match Json.loads s with
  | Some v => ret v
  | None => raise JSONDecodeError
  end.

(** [data.get(key, dflt)]: only a [dict] has the method. *)
Definition py_get (data : json) (key : string) (dflt : json) : result json :=
  match data with
  | JObject ms => Ok (default dflt (dict_get key ms))
  | _ => Raise AttributeError
  end.

Definition scan_warning (image : string) : string :=
  "[!] Warning: failed to scan " +:+ image.

Definition scan_image (w : world) (image : string) : M json :=
  try_except
    (let! out := subprocess_run w (grype_cmd image) in
     let! data := json_loads out in
     lift (py_get data "matches" (JArray [])))
    (λ e, match e with
          | CalledProcessError _ =>
              Some (eprint (scan_warning image) ;; ret (JArray []))
          | _ => None
          end).

(** *** [summarize] *)

Definition SEVERITIES : list string := ["Critical"; "High"; "Medium"; "Low"].

(** [for m in matches]: a list gives its items, a [dict] its keys, a [str]
    its characters (here one per byte); nothing else can be iterated. *)
Definition py_iter (v : json) : result (list json) :=
  match v with
  | JArray xs => Ok xs
  | JObject ms => Ok (JString <$> remove_dups ms.*1)
  | JString s => Ok ((λ c, JString (String c "")) <$> list_ascii_of_string s)
  | _ => Raise TypeError
  end.

(** [m.get("vulnerability", {}).get("severity", "").capitalize()] *)
Definition severity_of (m : json) : result string :=
  match py_get m "vulnerability" (JObject []) with
  | Ok v =>
      match py_get v "severity" (JString "") with
      | Ok (JString s) => Ok (capitalize s)
      | Ok _ => Raise AttributeError
      | Raise e => Raise e
      end
  | Raise e => Raise e
  end.

(** [s.get(sev, 0)], also the value [cnt[sev]] of a [defaultdict(int)]. *)
Definition count (s : gmap string Z) (sev : string) : Z := default 0 (s !! sev).

Definition summarize_step (cnt : gmap string Z) (m : json)
  : result (gmap string Z) :=
  match severity_of m with
  | Ok sev =>
      if bool_decide (sev ∈ SEVERITIES)
      then Ok (<[sev := count cnt sev + 1]> cnt)
      else Ok cnt
  | Raise e => Raise e
  end.

Fixpoint summarize_loop (ms : list json) (cnt : gmap string Z)
  : result (gmap string Z) :=
  match ms with
  | [] => Ok cnt
  | m :: ms' =>
      match summarize_step cnt m with
      | Ok cnt' => summarize_loop ms' cnt'
      | Raise e => Raise e
      end
  end.

Definition summarize (matches : json) : result (gmap string Z) :=
  match py_iter matches with
  | Ok ms => summarize_loop ms ∅
  | Raise e => Raise e
  end.

(** *** [main] *)

(** One entry of [per_image]. *)
Record image_report := ImageReport {
  Image : string;
  Critical : Z;
  High : Z;
  Medium : Z;
  Low : Z
}.

(** [for sev in (...): total[sev] += s.get(sev, 0)] *)
Definition accumulate (total s : gmap string Z) : gmap string Z :=
  foldl (λ t sev, <[sev := count t sev + count s sev]> t) total SEVERITIES.

Definition report_of (img : string) (s : gmap string Z) : image_report :=
  ImageReport img (count s "Critical") (count s "High")
              (count s "Medium") (count s "Low").

Definition loop_state : Type := gmap string Z * list image_report.

(** The body of [for img in images]. *)
Definition loop_body (w : world) (acc : loop_state) (img : string)
  : M loop_state :=
  let '(total, per_image) := acc in
  print ("🚀 Scanning: " +:+ img) ;;
  let! matches := scan_image w img in
  let! s := lift (summarize matches) in
  ret (accumulate total s, per_image ++ [report_of img s]).

Fixpoint main_loop (w : world) (images : list string) (acc : loop_state)
  : M loop_state :=
  match images with
  | [] => ret acc
  | img :: rest =>
      let! acc' := loop_body w acc img in
      main_loop w rest acc'
  end.

Definition csv_file : string := "grype-per-image-report.csv".
Definition fieldnames : list string := ["Image"; "Critical"; "High"; "Medium"; "Low"].

(** The values of a row in [fieldnames] order, as the writer prints them. *)
Definition row_fields (r : image_report) : list string :=
  [Image r; str (Critical r); str (High r); str (Medium r); str (Low r)].

(** [writer.writeheader(); writer.writerows(per_image)] *)
Definition csv_text (per_image : list image_report) : string :=
  Csv.writerow fieldnames +:+ Csv.writerows (row_fields <$> per_image).

Definition main (w : world) : M unit :=
  let! images := get_unique_images w in
  match images with
  | [] => eprint "No images found." ;; sys_exit 1
  | _ :: _ =>
      let! (total, per_image) := main_loop w images (∅, []) in
      let summary := [[count total "Critical"; count total "High";
                       count total "Medium"; count total "Low"]] in
      print (String LF "📊 Total Vulnerability Summary:") ;;
      print_grid ["Critical"; "High"; "Medium"; "Low"] summary ;;
      write_file w csv_file (csv_text per_image) ;;
      print (String LF "✅ Per-image details written to: " +:+ csv_file)
  end.

(** *** The process *)

Inductive exit_status :=
| Exited (code : Z)
| Uncaught (e : exn).

Record outcome := Outcome {
  status : exit_status;
  out : list out_event;
  err : list string;
  fs : gmap string string
}.

(** Running the script on a file system [fs0]: a normal return exits 0,
    [sys.exit(c)] exits [c], any other exception ends the process with
    the interpreter's traceback. *)
Definition run (w : world) (fs0 : gmap string string) : outcome :=
  let '(r, st) := main w (Io [] [] fs0) in
  Outcome
    match r with
    | Ok _ => Exited 0
    | Raise (SystemExit c) => Exited c
    | Raise e => Uncaught e
    end
    (stdout_log st) (stderr_log st) (files st).

Definition exit_code (o : outcome) : Z :=
  match status o with
  | Exited c => c
  | Uncaught _ => 1
  end.

End KubeScan.

(** ** Vocabulary of the statements *)

Import Py Json KubeScan.

(** [line] contains [s]. *)
Definition mentions (line s : string) : Prop :=
  ∃ pre post, line = pre +:+ s +:+ post.

(** Two severity counts are the same mapping on the four severities. *)
Definition counts_eq (a b : gmap string Z) : Prop :=
  ∀ sev, sev ∈ SEVERITIES → count a sev = count b sev.

Definition sum_counts (sev : string) (l : list (gmap string Z)) : Z :=
  foldr (λ s acc, count s sev + acc) 0 l.

(** A finding as the scanner writes it: an object whose [vulnerability]
    member, when present, is an object whose [severity] member, when
    present, is a string. *)
Definition finding_object (m : json) : bool :=
  match m with
  | JObject ms =>
      match dict_get "vulnerability" ms with
      | None => true
      | Some (JObject vs) =>
          match dict_get "severity" vs with
          | None | Some (JString _) => true
          | Some _ => false
          end
      | Some _ => false
      end
  | _ => false
  end.

(** The severity label a finding carries; the empty label when it has
    none. *)
Definition label (m : json) : string :=
  match m with
  | JObject ms =>
      match dict_get "vulnerability" ms with
      | Some (JObject vs) =>
          match dict_get "severity" vs with
          | Some (JString s) => s
          | _ => ""
          end
      | _ => ""
      end
  | _ => ""
  end.

(** The label after case normalisation. *)
Definition normalized (m : json) : string := capitalize (label m).

(** The number of findings whose normalised label is [sev]. *)
Definition occurrences (sev : string) (ms : list json) : Z :=
  Z.of_nat (length (filter (λ m, normalized m = sev) ms)).

(** The number of findings with a recognised severity. *)
Definition recognized (ms : list json) : Z :=
  Z.of_nat (length (filter (λ m, normalized m ∈ SEVERITIES) ms)).

(** A finding with the severity label [s]. *)
Definition finding (s : string) : json :=
  JObject [("vulnerability", JObject [("severity", JString s)])].

(** The effects of the script's prints on the state. *)
Definition progress (img : string) : string := "🚀 Scanning: " +:+ img.
Definition say (s : string) (st : io) : io :=
  Io (stdout_log st ++ [Line s]) (stderr_log st) (files st).
Definition warn (image : string) (st : io) : io :=
  Io (stdout_log st) (stderr_log st ++ [scan_warning image]) (files st).

(** The state a run starts from, but for the files, and what scanning an
    image adds to the diagnostic stream. *)
Definition io0 : io := Io [] [] ∅.
Definition warnings_of (w : world) (img : string) : list string :=
  stderr_log (scan_image w img io0).2.

(** What [subprocess.run] raises when it does not return. *)
Definition launch_error (c : completed) : exn :=
  match c with
  | SpawnError => OSError
  | BadArguments => ValueError
  | Undecodable _ => UnicodeDecodeError
  | Completed rc _ => CalledProcessError rc
  end.

(** The scanner invocation failed: it could not be started, its output
    could not be decoded, it exited with a non-zero code, or its output is
    not JSON. *)
Definition scan_fails (c : completed) : Prop :=
  match c with
  | Completed rc out => rc ≠ 0 ∨ Json.loads out = None
  | _ => True
  end.

(** The counts of an image: what [summarize] makes of the scan. *)
Definition image_counts (w : world) (img : string) : result (gmap string Z) :=
  match (scan_image w img (Io [] [] ∅)).1 with
  | Ok matches => summarize matches
  | Raise e => Raise e
  end.

Definition counts_of (w : world) (img : string) : gmap string Z :=
  match image_counts w img with
  | Ok s => s
  | Raise _ => ∅
  end.

(** The row of an image whose scan and summary complete. *)
Definition report_row (w : world) (img : string) : image_report :=
  report_of img (counts_of w img).

(** Every image is scanned and summarised without an exception. *)
Definition scans_complete (w : world) (images : list string) : Prop :=
  Forall (λ img, ∃ s, image_counts w img = Ok s) images.

(** What a run prints once the loop is over. *)
Definition CRLF : string := String CR (String LF "").
Definition summary_title : string := String LF "📊 Total Vulnerability Summary:".
Definition summary_grid (total : gmap string Z) : out_event :=
  Grid ["Critical"; "High"; "Medium"; "Low"]
       [[count total "Critical"; count total "High";
         count total "Medium"; count total "Low"]].
Definition done_line : string :=
  String LF "✅ Per-image details written to: " +:+ csv_file.
(** The lines of the report as text: the header, and the line of an
    image. *)
Definition header_line : string := "Image,Critical,High,Medium,Low" +:+ CRLF.
Definition report_line (w : world) (img : string) : string :=
  Csv.field img
  +:+ "," +:+ str (count (counts_of w img) "Critical")
  +:+ "," +:+ str (count (counts_of w img) "High")
  +:+ "," +:+ str (count (counts_of w img) "Medium")
  +:+ "," +:+ str (count (counts_of w img) "Low") +:+ CRLF.
Definition text_of_lines (lines : list string) : string :=
  foldr String.append "" lines.
Definition progress_lines (images : list string) : list out_event :=
  (λ img, Line (progress img)) <$> images.
Definition all_warnings (w : world) (images : list string) : list string :=
  concat (warnings_of w <$> images).
Definition final_total (w : world) (images : list string) : gmap string Z :=
  foldl accumulate ∅ (counts_of w <$> images).

Definition sum_of (f : image_report → Z) (rows : list image_report) : Z :=
  foldr (λ r acc, f r + acc) 0 rows.

(** The running total agrees with the rows appended so far. *)
Definition totals_agree (acc : loop_state) : Prop :=
  count acc.1 "Critical" = sum_of Critical acc.2
  ∧ count acc.1 "High" = sum_of High acc.2
  ∧ count acc.1 "Medium" = sum_of Medium acc.2
  ∧ count acc.1 "Low" = sum_of Low acc.2.

(** The report is surfaced on the diagnostic stream: every row's image is
    named there. *)
Definition report_on_stderr (o : outcome) (rows : list image_report) : Prop :=
  Forall (λ r, Exists (λ line, mentions line (Image r)) (err o)) rows.

(** A world for examples: what the inventory query gives, what the scanner
    gives for the listed images (it cannot be started for another), and
    how the file system answers. *)
Definition cluster (inventory : completed) (scans : list (string * completed))
    (access : file_access) : world :=
  World
    (λ cmd,
       if decide (cmd = kubectl_cmd) then inventory
       else match list_find (λ p, cmd = grype_cmd p.1) scans with
            | Some (_, (_, c)) => c
            | None => SpawnError
            end)
    (λ _, access).

Definition unlines (ls : list string) : string :=
  foldr (λ l acc, l +:+ String LF acc) "" ls.

(** The scanner's document for findings with the given labels. *)
Definition grype_json (labels : list string) : string :=
  let q := String DQUOTE "" in
  "{" +:+ q +:+ "matches" +:+ q +:+ ": ["
  +:+ Csv.join ", "
        ((λ s, "{" +:+ q +:+ "vulnerability" +:+ q +:+ ": {" +:+ q
               +:+ "severity" +:+ q +:+ ": " +:+ q +:+ s +:+ q +:+ "}}")
           <$> labels)
  +:+ "]}".

(** A printable ASCII character, and a line made of such characters. *)
Definition is_plain (c : ascii) : bool :=
  let n := nat_of_ascii c in ((32 <=? n) && (n <=? 126))%nat.
Definition plain_line (s : string) : bool :=
  negb (Csv.any_char (λ c, negb (is_plain c)) s).

(** The scanner ran on the image, its output was decoded, and it exited
    with a non-zero code. *)
Definition exits_nonzero (w : world) (img : string) : bool :=
  match exec w (grype_cmd img) with
  | Completed rc _ => negb (Z.eqb rc 0)
  | _ => false
  end.

(** The run reaches the end of the loop: the inventory query succeeds, its
    list is not empty and every image is scanned and summarised. *)
Definition loop_completes (w : world) : Prop :=
  ∃ out, exec w kubectl_cmd = Completed 0 out
    ∧ unique_images (splitlines out) ≠ []
    ∧ scans_complete w (unique_images (splitlines out)).

(** A carriage return or a line feed; the number of occurrences of a
    character in a text. *)
Definition is_break_char (c : ascii) : bool :=
  (Ascii.eqb c CR || Ascii.eqb c LF)%bool.
Fixpoint count_char (c : ascii) (s : string) : nat :=
  match s with
  | EmptyString => O
  | String c' s' => ((if Ascii.eqb c' c then 1 else 0) + count_char c s')%nat
  end.

(** * Properties *)

(** ** The decoder never runs out of fuel *)

Lemma skip_ws_length (s : string) :
  (String.length (skip_ws s) ≤ String.length s)%nat.
Proof.
  induction s as [|c s IH]; simpl; [lia|].
  destruct (is_ws c); simpl; lia.
Qed.

Lemma expect_length (c : ascii) (s r : string) :
  expect c s = Some r → String.length s = S (String.length r).
Proof.
  destruct s as [|c' s]; simpl; [discriminate|].
  destruct (Ascii.eqb c' c); [|discriminate].
  intros [= ->]. reflexivity.
Qed.

Lemma lex_string_length (n : nat) (s : string) (us : list unit16) (r : string) :
  (String.length s ≤ n)%nat → lex_string s = Some (us, r) →
  (String.length r < String.length s)%nat.
Proof.
  revert s us r. induction n as [|n IH]; intros s us r Hn Hlex.
  - destruct s; [discriminate | simpl in Hn; lia].
  - destruct s as [|c s]; [discriminate|]. simpl in Hn, Hlex.
    destruct (Ascii.eqb c DQUOTE); [injection Hlex as _ ->; simpl; lia|].
    destruct (nat_of_ascii c <? 32)%nat; [discriminate|].
    destruct (Ascii.eqb c BACKSLASH).
    + destruct s as [|e s]; [discriminate|].
      destruct (Ascii.eqb e "u").
      * destruct s as [|h1 [|h2 [|h3 [|h4 s]]]]; try discriminate.
        destruct (hex4 h1 h2 h3 h4); [|discriminate].
        destruct (lex_string s) as [[us' r']|] eqn:Hrec; [|discriminate].
        injection Hlex as _ ->. simpl in *.
        assert (String.length r < String.length s)%nat
          by (apply (IH s us' r); [lia | exact Hrec]).
        lia.
      * destruct (simple_escape e); [|discriminate].
        destruct (lex_string s) as [[us' r']|] eqn:Hrec; [|discriminate].
        injection Hlex as _ ->. simpl in *.
        assert (String.length r < String.length s)%nat
          by (apply (IH s us' r); [lia | exact Hrec]).
        lia.
    + destruct (lex_string s) as [[us' r']|] eqn:Hrec; [|discriminate].
      injection Hlex as _ ->. simpl.
      assert (String.length r < String.length s)%nat
        by (apply (IH s us' r); [lia | exact Hrec]).
      lia.
Qed.

Lemma scan_string_length (s v r : string) :
  scan_string s = Parsed v r → (String.length r < String.length s)%nat.
Proof.
  unfold scan_string.
  destruct (lex_string s) as [[us r']|] eqn:Hlex; [|discriminate].
  intros [= _ <-]. exact (lex_string_length _ s us r' (le_n _) Hlex).
Qed.

Lemma scan_string_fuel (s : string) : scan_string s ≠ OutOfFuel.
Proof. unfold scan_string. destruct (lex_string s) as [[??]|]; discriminate. Qed.

Lemma take_digits_length (s : string) :
  (String.length (take_digits s).2 ≤ String.length s)%nat.
Proof.
  induction s as [|c s IH]; simpl; [lia|].
  destruct (is_digit c); [|simpl; lia].
  destruct (take_digits s) as [ds rest]; simpl in *. lia.
Qed.

Lemma scan_int_length (s i r : string) :
  scan_int s = Some (i, r) → (String.length r < String.length s)%nat.
Proof.
  destruct s as [|c s]; simpl; [discriminate|].
  destruct (Ascii.eqb c "0"); [intros [= _ <-]; lia|].
  destruct (is_digit c); [|discriminate].
  pose proof (take_digits_length s) as Hlen.
  destruct (take_digits s) as [ds rest]. intros [= _ <-]. simpl in Hlen. lia.
Qed.

Lemma scan_frac_length (s : string) :
  (String.length (scan_frac s).2 ≤ String.length s)%nat.
Proof.
  unfold scan_frac. destruct (expect "." s) as [s'|] eqn:Hdot; [|simpl; lia].
  apply expect_length in Hdot. pose proof (take_digits_length s') as Hlen.
  destruct (take_digits s') as [[|d ds] rest]; simpl in *; lia.
Qed.

Lemma scan_exp_length (s : string) :
  (String.length (scan_exp s).2 ≤ String.length s)%nat.
Proof.
  unfold scan_exp. destruct s as [|e s']; [simpl; lia|].
  destruct (Ascii.eqb e "e" || Ascii.eqb e "E"); [|simpl; lia].
  set (sr := match s' with
             | String g t =>
                 if (Ascii.eqb g "+" || Ascii.eqb g "-")%char
                 then (String g "", t) else ("", s')
             | EmptyString => ("", s')
             end).
  assert (Hsr : (String.length sr.2 ≤ String.length s')%nat).
  { subst sr. destruct s' as [|g t]; [simpl; lia|].
    destruct (Ascii.eqb g "+" || Ascii.eqb g "-"); simpl; lia. }
  pose proof (take_digits_length sr.2) as Hlen.
  destruct (take_digits sr.2) as [[|d ds] rest]; simpl in *; lia.
Qed.

Lemma scan_number_length (s lx r : string) :
  scan_number s = Some (lx, r) → (String.length r < String.length s)%nat.
Proof.
  unfold scan_number.
  set (nr := match expect "-" s with Some t => ("-", t) | None => ("", s) end).
  assert (Hnr : (String.length nr.2 ≤ String.length s)%nat).
  { subst nr. destruct (expect "-" s) as [t|] eqn:Hminus; simpl; [|lia].
    apply expect_length in Hminus. lia. }
  destruct (scan_int nr.2) as [[i s2]|] eqn:Hint; [|discriminate].
  apply scan_int_length in Hint. intros [= _ <-].
  pose proof (scan_frac_length s2). pose proof (scan_exp_length (scan_frac s2).2).
  lia.
Qed.

Lemma strip_prefix_length (p s r : string) :
  strip_prefix p s = Some r →
  String.length s = (String.length p + String.length r)%nat.
Proof.
  revert s. induction p as [|a p IH]; intros s; simpl.
  - intros [= ->]. reflexivity.
  - destruct s as [|b s]; [discriminate|].
    destruct (Ascii.eqb a b); [|discriminate].
    intros H. apply IH in H. simpl. lia.
Qed.

Lemma scan_constant_length (s : string) (v : json) (r : string) :
  scan_constant s = Parsed v r → (String.length r < String.length s)%nat.
Proof.
  unfold scan_constant.
  repeat match goal with
  | |- context [strip_prefix ?p s] =>
      let H := fresh "H" in
      destruct (strip_prefix p s) eqn:H;
        [apply strip_prefix_length in H; simpl in H; intros [= _ <-]; lia|]
  | |- context [scan_number s] =>
      let H := fresh "H" in
      destruct (scan_number s) as [[??]|] eqn:H;
        [apply scan_number_length in H; intros [= _ <-]; exact H|]
  end.
  discriminate.
Qed.

Lemma scan_constant_fuel (s : string) : scan_constant s ≠ OutOfFuel.
Proof.
  unfold scan_constant.
  repeat match goal with
  | |- context [strip_prefix ?p s] => destruct (strip_prefix p s); [discriminate|]
  | |- context [scan_number s] => destruct (scan_number s) as [[??]|]; [discriminate|]
  end.
  discriminate.
Qed.

(** Whatever is parsed has consumed at least one character. *)
Lemma parse_consumes (n : nat) :
  (∀ s v r, parse_value n s = Parsed v r →
     (String.length r < String.length s)%nat)
  ∧ (∀ s acc v r, parse_elements n s acc = Parsed v r →
       (String.length r < String.length s)%nat)
  ∧ (∀ s acc v r, parse_members n s acc = Parsed v r →
       (String.length r < String.length s)%nat).
Proof.
  induction n as [|n (IHv & IHe & IHm)]; [repeat split; discriminate|].
  split; [|split].
  - intros s v r. simpl. destruct s as [|c s']; [discriminate|].
    pose proof (skip_ws_length s') as Hws.
    destruct (Ascii.eqb c "{").
    { destruct (expect "}" (skip_ws s')) as [r'|] eqn:Hclose.
      - apply expect_length in Hclose. intros [= _ <-]. simpl. lia.
      - intros H. apply IHm in H. simpl. lia. }
    destruct (Ascii.eqb c "[").
    { destruct (expect "]" (skip_ws s')) as [r'|] eqn:Hclose.
      - apply expect_length in Hclose. intros [= _ <-]. simpl. lia.
      - intros H. apply IHe in H. simpl. lia. }
    destruct (Ascii.eqb c DQUOTE).
    { destruct (scan_string s') as [k r'| |] eqn:Hstr; try discriminate.
      apply scan_string_length in Hstr. intros [= _ <-]. simpl. lia. }
    apply scan_constant_length.
  - intros s acc v r. simpl.
    destruct (parse_value n s) as [v1 r1| |] eqn:Hval; try discriminate.
    apply IHv in Hval. pose proof (skip_ws_length r1) as Hws.
    destruct (expect "," (skip_ws r1)) as [r'|] eqn:Hcomma.
    + apply expect_length in Hcomma. pose proof (skip_ws_length r') as Hws'.
      intros Hrec. apply IHe in Hrec. lia.
    + destruct (expect "]" (skip_ws r1)) as [r'|] eqn:Hclose; [|discriminate].
      apply expect_length in Hclose. intros [= _ <-]. lia.
  - intros s acc v r. simpl. destruct s as [|c s']; [discriminate|].
    destruct (Ascii.eqb c DQUOTE); [|discriminate].
    destruct (scan_string s') as [k r1| |] eqn:Hstr; try discriminate.
    apply scan_string_length in Hstr. pose proof (skip_ws_length r1).
    destruct (expect ":" (skip_ws r1)) as [r2|] eqn:Hcolon; [|discriminate].
    apply expect_length in Hcolon. pose proof (skip_ws_length r2).
    destruct (parse_value n (skip_ws r2)) as [v1 r3| |] eqn:Hval;
      try discriminate.
    apply IHv in Hval. pose proof (skip_ws_length r3).
    destruct (expect "," (skip_ws r3)) as [r4|] eqn:Hcomma.
    + apply expect_length in Hcomma. pose proof (skip_ws_length r4) as Hws4.
      intros Hrec. apply IHm in Hrec. simpl. lia.
    + destruct (expect "}" (skip_ws r3)) as [r4|] eqn:Hclose; [|discriminate].
      apply expect_length in Hclose. intros [= _ <-]. simpl. lia.
Qed.

(** Twice the length, and one or two more, is fuel enough. *)
Lemma parse_fuel (n : nat) :
  (∀ s, (2 * String.length s + 1 ≤ n)%nat → parse_value n s ≠ OutOfFuel)
  ∧ (∀ s acc, (2 * String.length s + 2 ≤ n)%nat →
       parse_elements n s acc ≠ OutOfFuel)
  ∧ (∀ s acc, (2 * String.length s + 2 ≤ n)%nat →
       parse_members n s acc ≠ OutOfFuel).
Proof.
  induction n as [|n (IHv & IHe & IHm)]; [repeat split; intros; lia|].
  destruct (parse_consumes n) as (Cv & _ & _).
  split; [|split].
  - intros s Hn. simpl. destruct s as [|c s']; [discriminate|].
    simpl in Hn. pose proof (skip_ws_length s') as Hws.
    destruct (Ascii.eqb c "{").
    { destruct (expect "}" (skip_ws s')); [discriminate|]. apply IHm. lia. }
    destruct (Ascii.eqb c "[").
    { destruct (expect "]" (skip_ws s')); [discriminate|]. apply IHe. lia. }
    destruct (Ascii.eqb c DQUOTE).
    { pose proof (scan_string_fuel s').
      destruct (scan_string s'); [discriminate|discriminate|contradiction]. }
    apply scan_constant_fuel.
  - intros s acc Hn. simpl.
    destruct (parse_value n s) as [v1 r1| |] eqn:Hval; [|discriminate|].
    + apply Cv in Hval. pose proof (skip_ws_length r1).
      destruct (expect "," (skip_ws r1)) as [r'|] eqn:Hcomma.
      * apply expect_length in Hcomma. pose proof (skip_ws_length r').
        apply IHe. lia.
      * destruct (expect "]" (skip_ws r1)); discriminate.
    + exfalso. apply (IHv s); [lia | exact Hval].
  - intros s acc Hn. simpl. destruct s as [|c s']; [discriminate|].
    simpl in Hn.
    destruct (Ascii.eqb c DQUOTE); [|discriminate].
    destruct (scan_string s') as [k r1| |] eqn:Hstr; [|discriminate|].
    + apply scan_string_length in Hstr. pose proof (skip_ws_length r1).
      destruct (expect ":" (skip_ws r1)) as [r2|] eqn:Hcolon; [|discriminate].
      apply expect_length in Hcolon. pose proof (skip_ws_length r2).
      destruct (parse_value n (skip_ws r2)) as [v1 r3| |] eqn:Hval;
        [|discriminate|].
      * apply Cv in Hval. pose proof (skip_ws_length r3).
        destruct (expect "," (skip_ws r3)) as [r4|] eqn:Hcomma.
        -- apply expect_length in Hcomma. pose proof (skip_ws_length r4).
           apply IHm. lia.
        -- destruct (expect "}" (skip_ws r3)); discriminate.
      * exfalso. apply (IHv (skip_ws r2)); [lia | exact Hval].
    + exfalso. exact (scan_string_fuel s' Hstr).
Qed.

(** [Json.loads] gives [None] only for a text that is not a JSON document:
    the fuel it takes is never used up. *)
Lemma loads_fuel (s : string) :
  parse_value (fuel_for s) (skip_ws s) ≠ OutOfFuel.
Proof.
  destruct (parse_fuel (fuel_for s)) as (Hv & _ & _). apply Hv.
  pose proof (skip_ws_length s). unfold fuel_for. lia.
Qed.

(** ** The collector *)

Lemma truthy_nonempty (s : string) : truthy s = true ↔ s ≠ "".
Proof. destruct s; simpl; split; congruence. Qed.

Lemma elem_of_unique_images (lines : list string) (x : string) :
  x ∈ unique_images lines ↔ x ∈ lines ∧ x ≠ "".
Proof.
  unfold unique_images, sorted, set.
  rewrite merge_sort_Permutation, elem_of_elements, elem_of_list_to_set.
  rewrite !list_elem_of_In, filter_In, truthy_nonempty. reflexivity.
Qed.

(** C3: whatever lines the inventory query printed, the parsed result has
    no empty string and no duplicate, is sorted by the order of [str], and
    holds exactly the non-empty lines; the lines nginx:1.21, nginx:1.21,
    redis:7 give nginx:1.21, redis:7. *)
Theorem unique_images_sorted_set (lines : list string) :
  ("" ∉ unique_images lines)
  ∧ NoDup (unique_images lines)
  ∧ StronglySorted String.le (unique_images lines)
  ∧ (∀ x, x ∈ unique_images lines ↔ x ∈ lines ∧ x ≠ "")
  ∧ unique_images ["nginx:1.21"; "nginx:1.21"; "redis:7"]
    = ["nginx:1.21"; "redis:7"].
Proof.
  split; [|split; [|split; [|split]]].
  - rewrite elem_of_unique_images. tauto.
  - unfold unique_images, sorted.
    rewrite merge_sort_Permutation. apply NoDup_elements.
  - apply StronglySorted_merge_sort; apply _.
  - apply elem_of_unique_images.
  - vm_compute. reflexivity.
Qed.

(** ** Accumulation *)

Lemma count_insert (m : gmap string Z) (k k' : string) (v : Z) :
  count (<[k := v]> m) k' = if decide (k = k') then v else count m k'.
Proof.
  unfold count. rewrite lookup_insert. destruct (decide (k = k')); reflexivity.
Qed.

Lemma lookup_accumulate (t s : gmap string Z) (k : string) :
  accumulate t s !! k
  = if decide (k ∈ SEVERITIES) then Some (count t k + count s k) else t !! k.
Proof.
  unfold accumulate, SEVERITIES; simpl.
  rewrite !lookup_insert, !count_insert.
  repeat (destruct (decide (_ = k)) as [<-|]; [reflexivity|]).
  rewrite decide_False; [reflexivity|].
  rewrite !elem_of_cons, elem_of_nil. intuition congruence.
Qed.

Lemma count_accumulate (t s : gmap string Z) (sev : string) :
  sev ∈ SEVERITIES → count (accumulate t s) sev = count t sev + count s sev.
Proof.
  intros Hsev. unfold count at 1.
  rewrite lookup_accumulate, decide_True by assumption. reflexivity.
Qed.

Lemma lookup_foldl_accumulate (l : list (gmap string Z)) (t : gmap string Z)
    (k : string) :
  foldl accumulate t l !! k
  = match l with
    | [] => t !! k
    | _ :: _ =>
        if decide (k ∈ SEVERITIES) then Some (count t k + sum_counts k l)
        else t !! k
    end.
Proof.
  revert t. induction l as [|s l IH]; intros t; [reflexivity|].
  simpl foldl. rewrite IH. destruct l as [|s' l].
  - rewrite lookup_accumulate. simpl.
    destruct (decide (k ∈ SEVERITIES)); [f_equal; lia | reflexivity].
  - destruct (decide (k ∈ SEVERITIES)) as [Hk|Hk].
    + rewrite count_accumulate by assumption.
      f_equal. unfold sum_counts; simpl. lia.
    + rewrite lookup_accumulate, decide_False by assumption. reflexivity.
Qed.




(** ** Summaries *)

Lemma severity_of_finding (m : json) :
  finding_object m = true → severity_of m = Ok (normalized m).
Proof.
  unfold finding_object, severity_of, normalized, label, py_get.
  destruct m as [| | | | |ms]; try discriminate.
  destruct (dict_get "vulnerability" ms) as [[| | | | |vs]|]; simpl;
    try discriminate; [|reflexivity].
  destruct (dict_get "severity" vs) as [[| | | | |]|]; simpl;
    try discriminate; reflexivity.
Qed.

Lemma occurrences_cons (sev : string) (m : json) (ms : list json) :
  occurrences sev (m :: ms)
  = (if decide (normalized m = sev) then 1 else 0) + occurrences sev ms.
Proof.
  unfold occurrences. rewrite filter_cons.
  destruct (decide (normalized m = sev)); simpl length; lia.
Qed.

Lemma recognized_cons (m : json) (ms : list json) :
  recognized (m :: ms)
  = (if decide (normalized m ∈ SEVERITIES) then 1 else 0) + recognized ms.
Proof.
  unfold recognized. rewrite filter_cons.
  destruct (decide (normalized m ∈ SEVERITIES)); simpl length; lia.
Qed.

Lemma recognized_occurrences (ms : list json) :
  recognized ms
  = occurrences "Critical" ms + occurrences "High" ms
    + occurrences "Medium" ms + occurrences "Low" ms.
Proof.
  induction ms as [|m ms IH].
  - reflexivity.
  - rewrite recognized_cons, !occurrences_cons, IH.
    destruct (decide (normalized m ∈ SEVERITIES)) as [Hin|Hout].
    + unfold SEVERITIES in Hin.
      rewrite !elem_of_cons, elem_of_nil in Hin.
      destruct Hin as [->|[->|[->|[->|[]]]]]; simpl; lia.
    + repeat (rewrite decide_False;
        [|intros Heq; apply Hout; rewrite Heq; unfold SEVERITIES;
          rewrite !elem_of_cons; tauto]).
      lia.
Qed.

(** The loop of [summarize] from any starting count. *)
Lemma summarize_loop_counts (ms : list json) (cnt : gmap string Z) :
  forallb finding_object ms = true →
  ∃ cnt', summarize_loop ms cnt = Ok cnt'
    ∧ (∀ sev, sev ∈ SEVERITIES →
         count cnt' sev = count cnt sev + occurrences sev ms)
    ∧ (∀ k, k ∉ SEVERITIES → cnt' !! k = cnt !! k).
Proof.
  revert cnt. induction ms as [|m ms IH]; intros cnt Hwf.
  - exists cnt. split; [reflexivity|]. split; [|reflexivity].
    intros sev _. unfold occurrences; simpl. lia.
  - simpl in Hwf. apply andb_true_iff in Hwf as [Hm Hms].
    simpl. unfold summarize_step. rewrite (severity_of_finding m Hm).
    destruct (bool_decide (normalized m ∈ SEVERITIES)) eqn:Hrec.
    + apply bool_decide_eq_true in Hrec.
      destruct (IH (<[normalized m := count cnt (normalized m) + 1]> cnt) Hms)
        as (cnt' & Hloop & Hcount & Hother).
      exists cnt'. split; [exact Hloop|]. split.
      * intros sev Hsev. rewrite (Hcount sev Hsev), count_insert, occurrences_cons.
        destruct (decide (normalized m = sev)) as [->|]; lia.
      * intros k Hk. rewrite (Hother k Hk). apply lookup_insert_ne.
        intros Heq. apply Hk. rewrite <- Heq. exact Hrec.
    + apply bool_decide_eq_false in Hrec.
      destruct (IH cnt Hms) as (cnt' & Hloop & Hcount & Hother).
      exists cnt'. split; [exact Hloop|]. split; [|exact Hother].
      intros sev Hsev. rewrite (Hcount sev Hsev), occurrences_cons.
      rewrite decide_False; [lia|].
      intros Heq. apply Hrec. rewrite Heq. exact Hsev.
Qed.

Lemma summarize_loop_skip (ms1 ms2 : list json) (m : json) (cnt : gmap string Z) :
  finding_object m = true → normalized m ∉ SEVERITIES →
  summarize_loop (ms1 ++ m :: ms2) cnt = summarize_loop (ms1 ++ ms2) cnt.
Proof.
  intros Hm Hout. revert cnt. induction ms1 as [|m1 ms1 IH]; intros cnt; simpl.
  - unfold summarize_step. rewrite (severity_of_finding m Hm).
    rewrite bool_decide_eq_false_2 by exact Hout. reflexivity.
  - destruct (summarize_step cnt m1); [apply IH | reflexivity].
Qed.

(** C2: on a list of findings, [summarize] returns a count in which each
    bucket is the number of findings with that normalised severity; the
    four buckets add up to the number of findings with a recognised
    severity, nothing is counted under another key, and a finding whose
    label is missing or unrecognised changes no bucket. *)
Theorem summarize_counts_recognized (ms : list json) :
  forallb finding_object ms = true →
  ∃ cnt, summarize (JArray ms) = Ok cnt
    ∧ count cnt "Critical" + count cnt "High"
      + count cnt "Medium" + count cnt "Low" = recognized ms
    ∧ (∀ sev, sev ∈ SEVERITIES → count cnt sev = occurrences sev ms)
    ∧ (∀ k, k ∉ SEVERITIES → cnt !! k = None)
    ∧ (∀ ms1 m ms2, ms = ms1 ++ m :: ms2 → normalized m ∉ SEVERITIES →
         summarize (JArray (ms1 ++ ms2)) = Ok cnt).
Proof.
  intros Hwf.
  destruct (summarize_loop_counts ms ∅ Hwf) as (cnt & Hloop & Hcount & Hother).
  assert (Hocc : ∀ sev, sev ∈ SEVERITIES → count cnt sev = occurrences sev ms).
  { intros sev Hsev. rewrite (Hcount sev Hsev). unfold count at 1.
    rewrite lookup_empty. simpl. lia. }
  exists cnt. split; [exact Hloop|]. split; [|split; [exact Hocc|split]].
  - rewrite recognized_occurrences.
    rewrite !Hocc; [reflexivity| |  | |];
      unfold SEVERITIES; rewrite !elem_of_cons; tauto.
  - intros k Hk. rewrite (Hother k Hk). apply lookup_empty.
  - intros ms1 m ms2 -> Hout. simpl. rewrite <- Hloop. symmetry.
    apply summarize_loop_skip; [|exact Hout].
    rewrite forallb_app in Hwf. simpl in Hwf.
    apply andb_true_iff in Hwf as [_ Hwf].
    apply andb_true_iff in Hwf as [Hm _]. exact Hm.
Qed.

Lemma summarize_counts_recognized_witness :
  ∃ cnt, summarize (JArray [finding "low"; finding "MEDIUM"; JObject [];
                            finding "Negligible"; finding "Low"]) = Ok cnt
    ∧ count cnt "Critical" + count cnt "High"
      + count cnt "Medium" + count cnt "Low" = 3.
Proof.
  destruct (summarize_counts_recognized
              [finding "low"; finding "MEDIUM"; JObject [];
               finding "Negligible"; finding "Low"] eq_refl)
    as (cnt & Hsum & Htotal & _).
  exists cnt. split; [exact Hsum | exact Htotal].
Defined.

(** C7: the label is compared after its first letter is put in upper case
    and the rest in lower case; findings labelled Critical, high, HIGH and
    unknown are counted as one Critical and two High, none Medium, none
    Low, and unknown is counted nowhere. *)
Theorem summarize_normalizes_case :
  (∀ c s, capitalize (String c s) = String (ascii_upper c) (lower s))
  ∧ Json.loads (grype_json ["Critical"; "high"; "HIGH"; "unknown"])
    = Some (JObject
              [("matches",
                JArray (finding <$> ["Critical"; "high"; "HIGH"; "unknown"]))])
  ∧ normalized <$> (finding <$> ["Critical"; "high"; "HIGH"; "unknown"])
    = ["Critical"; "High"; "High"; "Unknown"]
  ∧ ∃ cnt,
      summarize (JArray (finding <$> ["Critical"; "high"; "HIGH"; "unknown"]))
      = Ok cnt
      ∧ count cnt "Critical" = 1 ∧ count cnt "High" = 2
      ∧ count cnt "Medium" = 0 ∧ count cnt "Low" = 0
      ∧ cnt !! "Unknown" = None ∧ cnt !! "unknown" = None
      ∧ report_of "redis:7" cnt = ImageReport "redis:7" 1 2 0 0.
Proof.
  split; [reflexivity|]. split; [vm_compute; reflexivity|].
  split; [reflexivity|].
  eexists. split; [vm_compute; reflexivity|].
  repeat split; vm_compute; reflexivity.
Qed.

(** ** The scanner *)

Lemma scan_image_run (w : world) (image : string) (st : io) :
  scan_image w image st
  = match exec w (grype_cmd image) with
    | Completed rc out =>
        if Z.eqb rc 0 then
          match Json.loads out with
          | Some data => (py_get data "matches" (JArray []), st)
          | None => (Raise JSONDecodeError, st)
          end
        else (Ok (JArray []), warn image st)
    | c => (Raise (launch_error c), st)
    end.
Proof.
  unfold scan_image, try_except, bind, subprocess_run, json_loads, lift,
    ret, raise.
  destruct (exec w (grype_cmd image)) as [| |rc'|rc out]; try reflexivity.
  destruct (Z.eqb rc 0); [|reflexivity].
  destruct (Json.loads out) as [data|]; [|reflexivity].
  destruct data; reflexivity.
Qed.

Lemma loop_body_run (w : world) (total : gmap string Z)
    (per_image : list image_report) (img : string) (st : io) :
  loop_body w (total, per_image) img st
  = match scan_image w img (say (progress img) st) with
    | (Ok matches, st') =>
        match summarize matches with
        | Ok s => (Ok (accumulate total s, per_image ++ [report_of img s]), st')
        | Raise e => (Raise e, st')
        end
    | (Raise e, st') => (Raise e, st')
    end.
Proof.
  unfold loop_body, bind, print, lift, ret. fold (progress img).
  change (Io (stdout_log st ++ [Line (progress img)]) (stderr_log st) (files st))
    with (say (progress img) st).
  destruct (scan_image w img (say (progress img) st)) as [[matches|e] st'];
    [|reflexivity].
  destruct (summarize matches); reflexivity.
Qed.

Lemma main_loop_cons (w : world) (img : string) (rest : list string)
    (acc : loop_state) (st : io) :
  main_loop w (img :: rest) acc st
  = match loop_body w acc img st with
    | (Ok acc', st') => main_loop w rest acc' st'
    | (Raise e, st') => (Raise e, st')
    end.
Proof. reflexivity. Qed.

Lemma mentions_suffix (pre s : string) : mentions (pre +:+ s) s.
Proof.
  exists pre, "".
  assert (Hnil : s +:+ "" = s).
  { induction s as [|c s IH]; [reflexivity|].
    change (String c (s +:+ "") = String c s). f_equal. exact IH. }
  rewrite Hnil. reflexivity.
Qed.

Lemma count_empty (sev : string) : count ∅ sev = 0.
Proof. unfold count. rewrite lookup_empty. reflexivity. Qed.

(** C1 (as the code has it): when the scanner ran, its captured output
    was decoded, and it exited with a non-zero code ([check=True] raises
    [CalledProcessError], the one exception the handler names),
    [scan_image] returns the empty finding list and writes one warning
    naming the image on the diagnostic stream; the image's report row has
    four zero counts, the total is unchanged and the loop goes on with the
    remaining images. *)
Theorem scan_nonzero_exit_isolated (w : world) (image : string) (rc : Z)
    (out : string) (st : io) (total : gmap string Z)
    (per_image : list image_report) (rest : list string) :
  exec w (grype_cmd image) = Completed rc out → rc ≠ 0 →
  scan_image w image st = (Ok (JArray []), warn image st)
  ∧ mentions (scan_warning image) image
  ∧ loop_body w (total, per_image) image st
    = (Ok (accumulate total ∅, per_image ++ [ImageReport image 0 0 0 0]),
       warn image (say (progress image) st))
  ∧ counts_eq (accumulate total ∅) total
  ∧ main_loop w (image :: rest) (total, per_image) st
    = main_loop w rest
        (accumulate total ∅, per_image ++ [ImageReport image 0 0 0 0])
        (warn image (say (progress image) st)).
Proof.
  intros Hexec Hrc.
  assert (Hscan : ∀ st', scan_image w image st' = (Ok (JArray []), warn image st')).
  { intros st'. rewrite scan_image_run, Hexec.
    destruct (Z.eqb_spec rc 0); [contradiction | reflexivity]. }
  assert (Hbody : loop_body w (total, per_image) image st
    = (Ok (accumulate total ∅, per_image ++ [ImageReport image 0 0 0 0]),
       warn image (say (progress image) st))).
  { rewrite loop_body_run, Hscan. reflexivity. }
  split; [apply Hscan|]. split; [apply mentions_suffix|].
  split; [exact Hbody|]. split.
  - intros sev Hsev. rewrite count_accumulate, count_empty by assumption. lia.
  - rewrite main_loop_cons, Hbody. reflexivity.
Qed.

Lemma scan_nonzero_exit_isolated_witness :
  let w := cluster (Completed 0 (unlines ["nginx:1.21"; "redis:7"]))
             [("nginx:1.21", Completed 1 ""); ("redis:7", Completed 0 "{}")]
             Writable in
  exec w (grype_cmd "nginx:1.21") = Completed 1 "" ∧ 1 ≠ 0
  ∧ main_loop w ["nginx:1.21"; "redis:7"] (∅, []) (Io [] [] ∅)
    = main_loop w ["redis:7"]
        (accumulate ∅ ∅, [ImageReport "nginx:1.21" 0 0 0 0])
        (warn "nginx:1.21" (say (progress "nginx:1.21") (Io [] [] ∅))).
Proof.
  intros w. split; [reflexivity|]. split; [lia|].
  apply (scan_nonzero_exit_isolated w "nginx:1.21" 1 "" (Io [] [] ∅) ∅ []
           ["redis:7"] eq_refl).
  lia.
Defined.

(** C1 (as stated) fails: a scanner that cannot be started, a scanner
    whose output is not JSON, and a scanner that exits with code 3 after
    printing bytes that are not text, make [scan_image] raise; no warning
    is written and the run ends at that image with the uncaught exception,
    redis:7 is never scanned. *)
Lemma scan_failure_propagates :
  let missing := cluster (Completed 0 (unlines ["nginx:1.21"; "redis:7"]))
                   [("redis:7", Completed 0 "{}")] Writable in
  let garbled := cluster (Completed 0 (unlines ["nginx:1.21"; "redis:7"]))
                   [("nginx:1.21", Completed 0 "not json");
                    ("redis:7", Completed 0 "{}")] Writable in
  let binary := cluster (Completed 0 (unlines ["nginx:1.21"; "redis:7"]))
                  [("nginx:1.21", Undecodable 3);
                   ("redis:7", Completed 0 "{}")] Writable in
  scan_fails (exec missing (grype_cmd "nginx:1.21"))
  ∧ scan_image missing "nginx:1.21" (Io [] [] ∅) = (Raise OSError, Io [] [] ∅)
  ∧ run missing ∅
    = Outcome (Uncaught OSError) [Line (progress "nginx:1.21")] [] ∅
  ∧ scan_fails (exec garbled (grype_cmd "nginx:1.21"))
  ∧ scan_image garbled "nginx:1.21" (Io [] [] ∅)
    = (Raise JSONDecodeError, Io [] [] ∅)
  ∧ run garbled ∅
    = Outcome (Uncaught JSONDecodeError) [Line (progress "nginx:1.21")] [] ∅
  ∧ scan_fails (exec binary (grype_cmd "nginx:1.21"))
  ∧ scan_image binary "nginx:1.21" (Io [] [] ∅)
    = (Raise UnicodeDecodeError, Io [] [] ∅)
  ∧ run binary ∅
    = Outcome (Uncaught UnicodeDecodeError) [Line (progress "nginx:1.21")]
              [] ∅
  ∧ ¬ (∀ (w : world) (image : string) (st : io),
         scan_fails (exec w (grype_cmd image)) →
         scan_image w image st = (Ok (JArray []), warn image st)).
Proof.
  intros missing garbled binary.
  split; [exact I|]. split; [reflexivity|]. split; [vm_compute; reflexivity|].
  split; [right; vm_compute; reflexivity|]. split; [vm_compute; reflexivity|].
  split; [vm_compute; reflexivity|].
  split; [exact I|]. split; [reflexivity|]. split; [vm_compute; reflexivity|].
  intros Hclaim.
  specialize (Hclaim missing "nginx:1.21" (Io [] [] ∅) I). discriminate Hclaim.
Qed.

(** C10: when the scanner exits with code zero and its output is a JSON
    object without a [matches] member, [scan_image] returns the empty
    finding list, without a warning, and the image's report row has four
    zero counts. *)
Theorem scan_without_matches (w : world) (image out : string)
    (members : list (string * json)) (st : io) (total : gmap string Z)
    (per_image : list image_report) :
  exec w (grype_cmd image) = Completed 0 out →
  Json.loads out = Some (JObject members) →
  dict_get "matches" members = None →
  scan_image w image st = (Ok (JArray []), st)
  ∧ summarize (JArray []) = Ok ∅
  ∧ loop_body w (total, per_image) image st
    = (Ok (accumulate total ∅, per_image ++ [ImageReport image 0 0 0 0]),
       say (progress image) st).
Proof.
  intros Hexec Hloads Hnone.
  assert (Hscan : ∀ st', scan_image w image st' = (Ok (JArray []), st')).
  { intros st'. rewrite scan_image_run, Hexec, Hloads. simpl.
    rewrite Hnone. reflexivity. }
  split; [apply Hscan|]. split; [reflexivity|].
  rewrite loop_body_run, Hscan. reflexivity.
Qed.

Lemma scan_without_matches_witness :
  let w := cluster (Completed 0 (unlines ["redis:7"]))
             [("redis:7", Completed 0 "{ }")] Writable in
  exec w (grype_cmd "redis:7") = Completed 0 "{ }"
  ∧ Json.loads "{ }" = Some (JObject [])
  ∧ dict_get "matches" [] = None
  ∧ scan_image w "redis:7" (Io [] [] ∅) = (Ok (JArray []), Io [] [] ∅).
Proof.
  intros w. split; [reflexivity|]. split; [reflexivity|]. split; [reflexivity|].
  apply (scan_without_matches w "redis:7" "{ }" [] (Io [] [] ∅) ∅ []
           eq_refl eq_refl eq_refl).
Defined.

(** ** The main loop *)

Lemma scan_image_frame (w : world) (img : string) (st : io) :
  scan_image w img st
  = ((scan_image w img io0).1,
     Io (stdout_log st) (stderr_log st ++ warnings_of w img) (files st)).
Proof.
  unfold warnings_of. rewrite !scan_image_run.
  destruct st as [o e f].
  destruct (exec w (grype_cmd img)) as [| |rc'|rc out]; simpl;
    try (rewrite app_nil_r; reflexivity).
  destruct (Z.eqb rc 0); simpl; [|reflexivity].
  destruct (Json.loads out); simpl; rewrite app_nil_r; reflexivity.
Qed.

Lemma warnings_of_cases (w : world) (img : string) :
  warnings_of w img = [] ∨ warnings_of w img = [scan_warning img].
Proof.
  unfold warnings_of. rewrite scan_image_run.
  destruct (exec w (grype_cmd img)) as [| |rc'|rc out]; simpl; try tauto.
  destruct (Z.eqb rc 0); simpl; [|tauto].
  destruct (Json.loads out); simpl; tauto.
Qed.

(** One turn of the loop, in terms of the image's counts. *)
Lemma loop_body_counts (w : world) (total : gmap string Z)
    (per_image : list image_report) (img : string) (st : io) :
  loop_body w (total, per_image) img st
  = (match image_counts w img with
     | Ok s => Ok (accumulate total s, per_image ++ [report_of img s])
     | Raise e => Raise e
     end,
     Io (stdout_log st ++ [Line (progress img)])
        (stderr_log st ++ warnings_of w img) (files st)).
Proof.
  rewrite loop_body_run, scan_image_frame. unfold image_counts, say. simpl.
  fold io0.
  destruct (scan_image w img io0).1 as [matches|e]; [|reflexivity].
  destruct (summarize matches); reflexivity.
Qed.

Lemma main_loop_app (w : world) (xs ys : list string) (acc : loop_state)
    (st : io) :
  main_loop w (xs ++ ys) acc st
  = match main_loop w xs acc st with
    | (Ok acc', st') => main_loop w ys acc' st'
    | (Raise e, st') => (Raise e, st')
    end.
Proof.
  revert acc st. induction xs as [|x xs IH]; intros acc st; [reflexivity|].
  rewrite <- app_comm_cons, !main_loop_cons.
  destruct (loop_body w acc x st) as [[acc'|e] st']; [apply IH | reflexivity].
Qed.

Lemma sum_of_app (f : image_report → Z) (xs ys : list image_report) :
  sum_of f (xs ++ ys) = sum_of f xs + sum_of f ys.
Proof. unfold sum_of. induction xs as [|x xs IH]; simpl; lia. Qed.

Lemma four_severities :
  "Critical" ∈ SEVERITIES ∧ "High" ∈ SEVERITIES
  ∧ "Medium" ∈ SEVERITIES ∧ "Low" ∈ SEVERITIES.
Proof. unfold SEVERITIES. rewrite !elem_of_cons. tauto. Qed.

(** A turn of the loop that completes keeps the total equal to the sums of
    the rows. *)
Lemma loop_body_agree (w : world) (acc acc' : loop_state) (img : string)
    (st st' : io) :
  totals_agree acc → loop_body w acc img st = (Ok acc', st') →
  totals_agree acc' ∧ Image <$> acc'.2 = (Image <$> acc.2) ++ [img].
Proof.
  destruct acc as [total per_image]. intros (HC & HH & HM & HL) Hbody.
  rewrite loop_body_counts in Hbody.
  destruct (image_counts w img) as [s|e]; [|discriminate].
  injection Hbody as <- _.
  destruct four_severities as (IC & IH & IM & IL).
  unfold totals_agree; simpl in *.
  rewrite !sum_of_app, !count_accumulate by assumption.
  rewrite HC, HH, HM, HL, fmap_app. unfold sum_of; simpl.
  repeat split; lia.
Qed.

Lemma main_loop_agree (w : world) (images : list string) (acc acc' : loop_state)
    (st st' : io) :
  totals_agree acc → main_loop w images acc st = (Ok acc', st') →
  totals_agree acc' ∧ Image <$> acc'.2 = (Image <$> acc.2) ++ images.
Proof.
  revert acc st. induction images as [|img rest IH]; intros acc st Hacc Hloop.
  - injection Hloop as <- _. rewrite app_nil_r. tauto.
  - rewrite main_loop_cons in Hloop.
    destruct (loop_body w acc img st) as [[acc1|e] st1] eqn:Hbody;
      [|discriminate].
    destruct (loop_body_agree w acc acc1 img st st1 Hacc Hbody) as [Hacc1 Himg].
    destruct (IH acc1 st1 Hacc1 Hloop) as [Hacc' Himgs].
    split; [exact Hacc'|]. rewrite Himgs, Himg, <- app_assoc. reflexivity.
Qed.

(** C4: at the point of the loop where the images [done] have been
    aggregated (the loop over [done ++ rest] goes on from there with
    [rest]), the running total of each severity is the sum of that
    severity over the rows appended so far, one row per image of [done]. *)
Theorem total_equals_sum_of_reports (w : world) (done rest : list string)
    (total : gmap string Z) (per_image : list image_report) (st0 st : io) :
  main_loop w done (∅, []) st0 = (Ok (total, per_image), st) →
  count total "Critical" = sum_of Critical per_image
  ∧ count total "High" = sum_of High per_image
  ∧ count total "Medium" = sum_of Medium per_image
  ∧ count total "Low" = sum_of Low per_image
  ∧ Image <$> per_image = done
  ∧ main_loop w (done ++ rest) (∅, []) st0
    = main_loop w rest (total, per_image) st.
Proof.
  intros Hloop.
  assert (Hinit : totals_agree (∅, [])).
  { unfold totals_agree; simpl. rewrite !count_empty. tauto. }
  destruct (main_loop_agree w done _ _ st0 st Hinit Hloop)
    as [(HC & HH & HM & HL) Himgs].
  simpl in *. repeat (split; [assumption|]).
  rewrite main_loop_app, Hloop. reflexivity.
Qed.

Lemma total_equals_sum_of_reports_witness :
  let w := cluster (Completed 0 (unlines ["nginx:1.21"; "redis:7"; "zoo:3"]))
             [("nginx:1.21", Completed 0 (grype_json ["High"; "low"; "high"]));
              ("redis:7", Completed 2 "");
              ("zoo:3", Completed 0 (grype_json ["Critical"; "HIGH"]))]
             Writable in
  ∃ total per_image st,
    main_loop w ["nginx:1.21"; "redis:7"; "zoo:3"] (∅, []) io0
    = (Ok (total, per_image), st)
    ∧ count total "High" = sum_of High per_image
    ∧ count total "High" = 3.
Proof.
  intros w.
  destruct (main_loop w ["nginx:1.21"; "redis:7"; "zoo:3"] (∅, []) io0)
    as [[[total per_image]|e] st] eqn:Hloop; [|vm_compute in Hloop; discriminate].
  exists total, per_image, st. split; [reflexivity|].
  split.
  - apply (total_equals_sum_of_reports w _ [] total per_image io0 st Hloop).
  - vm_compute in Hloop. injection Hloop as <- _ _. reflexivity.
Defined.

(** ** An empty inventory *)

Lemma get_unique_images_run (w : world) (st : io) :
  get_unique_images w st
  = match exec w kubectl_cmd with
    | Completed rc out =>
        if Z.eqb rc 0 then (Ok (unique_images (splitlines out)), st)
        else (Raise (CalledProcessError rc), st)
    | c => (Raise (launch_error c), st)
    end.
Proof.
  unfold get_unique_images, bind, subprocess_run, ret, raise.
  destruct (exec w kubectl_cmd) as [| |rc'|rc out]; try reflexivity.
  destruct (Z.eqb rc 0); reflexivity.
Qed.

Lemma get_unique_images_state (w : world) (st st' : io) (r : result (list string)) :
  get_unique_images w st = (r, st') → st' = st.
Proof.
  rewrite get_unique_images_run.
  destruct (exec w kubectl_cmd) as [| |rc'|rc out]; try congruence.
  destruct (Z.eqb rc 0); congruence.
Qed.

(** C6: when the collector returns no image, the script writes
    [No images found.] on the diagnostic stream and exits with code 1; it
    prints nothing on standard output and leaves the files as they were. *)
Theorem no_images_exit (w : world) (fs0 : gmap string string) (st : io) :
  get_unique_images w (Io [] [] fs0) = (Ok [], st) →
  run w fs0 = Outcome (Exited 1) [] ["No images found."] fs0
  ∧ exit_code (run w fs0) ≠ 0.
Proof.
  intros Hget.
  assert (Hrun : run w fs0 = Outcome (Exited 1) [] ["No images found."] fs0).
  { pose proof (get_unique_images_state _ _ _ _ Hget) as ->.
    unfold run, main, bind. rewrite Hget. reflexivity. }
  split; [exact Hrun|]. rewrite Hrun. discriminate.
Qed.

Lemma no_images_exit_witness :
  let w := cluster (Completed 0 (unlines [""; ""])) [] Writable in
  get_unique_images w (Io [] [] {[ csv_file := "old" ]})
  = (Ok [], Io [] [] {[ csv_file := "old" ]})
  ∧ run w {[ csv_file := "old" ]}
    = Outcome (Exited 1) [] ["No images found."] {[ csv_file := "old" ]}.
Proof.
  intros w. split; [reflexivity|].
  apply (no_images_exit w {[ csv_file := "old" ]}
           (Io [] [] {[ csv_file := "old" ]}) eq_refl).
Defined.
(** ** The report file *)

Lemma main_loop_complete (w : world) (images : list string)
    (total : gmap string Z) (per_image : list image_report) (st : io) :
  scans_complete w images →
  main_loop w images (total, per_image) st
  = (Ok (foldl accumulate total (counts_of w <$> images),
         per_image ++ (report_row w <$> images)),
     Io (stdout_log st ++ progress_lines images)
        (stderr_log st ++ all_warnings w images) (files st)).
Proof.
  unfold scans_complete, all_warnings, progress_lines.
  revert total per_image st.
  induction images as [|img rest IH]; intros total per_image st Hall.
  - simpl. rewrite !app_nil_r. destruct st; reflexivity.
  - apply Forall_cons in Hall as [[s Hs] Hrest].
    assert (Hc : counts_of w img = s) by (unfold counts_of; rewrite Hs; reflexivity).
    rewrite main_loop_cons, loop_body_counts, Hs, (IH _ _ _ Hrest).
    rewrite !fmap_cons. unfold report_row at 2. rewrite Hc.
    cbn [foldl concat stdout_log stderr_log files].
    rewrite <- !app_assoc. reflexivity.
Qed.

(** A run whose inventory is not empty and whose scans all complete. *)
Lemma run_complete (w : world) (fs0 : gmap string string) (out : string) :
  let images := unique_images (splitlines out) in
  let rows := report_row w <$> images in
  let printed := progress_lines images
                 ++ [Line summary_title; summary_grid (final_total w images)] in
  exec w kubectl_cmd = Completed 0 out →
  images ≠ [] →
  scans_complete w images →
  run w fs0
  = match open_w w csv_file with
    | Writable =>
        Outcome (Exited 0) (printed ++ [Line done_line])
                (all_warnings w images) (<[csv_file := csv_text rows]> fs0)
    | OpenFails =>
        Outcome (Uncaught OSError) printed (all_warnings w images) fs0
    | WriteFails written =>
        Outcome (Uncaught OSError) printed (all_warnings w images)
                (<[csv_file := written]> fs0)
    end.
Proof.
  intros images rows printed Hexec Hne Hall.
  unfold run, main, bind.
  rewrite get_unique_images_run, Hexec. simpl. fold images.
  destruct images as [|img rest] eqn:Himages; [contradiction|].
  rewrite (main_loop_complete w (img :: rest) ∅ [] _ Hall).
  unfold print, print_grid, write_file. simpl stdout_log. simpl stderr_log.
  simpl files.
  subst printed rows. unfold final_total, summary_grid.
  destruct (open_w w csv_file); simpl; rewrite <- ?app_assoc; reflexivity.
Qed.

Lemma quote_free_pretty_N_go (x : N) (s : string) :
  Csv.any_char Csv.needs_quote (pretty_N_go x s)
  = Csv.any_char Csv.needs_quote s.
Proof.
  revert s. induction (N.lt_wf_0 x) as [x _ IH]; intros s.
  destruct (decide (0 < x)%N) as [Hpos|Hzero].
  - rewrite pretty_N_go_step by exact Hpos.
    rewrite IH by (apply N.div_lt; lia). simpl.
    assert (Hd : Csv.needs_quote (pretty_N_char (x `mod` 10)) = false).
    { unfold pretty_N_char. repeat case_match; reflexivity. }
    rewrite Hd. reflexivity.
  - assert (x = 0%N) as -> by lia. reflexivity.
Qed.

(** The decimal form of an integer is written without quotes. *)
Lemma field_str (n : Z) : Csv.field (str n) = str n.
Proof.
  unfold Csv.field.
  assert (H : Csv.any_char Csv.needs_quote (str n) = false);
    [|rewrite H; reflexivity].
  assert (HN : ∀ x : N, Csv.any_char Csv.needs_quote (pretty x) = false).
  { intros x. unfold pretty, pretty_N. case_decide; [reflexivity|].
    rewrite quote_free_pretty_N_go. reflexivity. }
  unfold str, pretty, pretty_Z. destruct n as [|p|p].
  - reflexivity.
  - apply HN.
  - change (Csv.any_char Csv.needs_quote (String "-" (pretty (Npos p))) = false).
    simpl. apply HN.
Qed.

Lemma append_assoc (a b c : string) : (a +:+ b) +:+ c = a +:+ b +:+ c.
Proof.
  induction a as [|x a IH]; [reflexivity|].
  change (String x ((a +:+ b) +:+ c) = String x (a +:+ b +:+ c)).
  f_equal. exact IH.
Qed.

Lemma writerow_report (r : image_report) :
  Csv.writerow (row_fields r)
  = Csv.field (Image r) +:+ "," +:+ str (Critical r) +:+ "," +:+ str (High r)
    +:+ "," +:+ str (Medium r) +:+ "," +:+ str (Low r) +:+ CRLF.
Proof.
  unfold Csv.writerow, row_fields. simpl fmap. rewrite !field_str.
  unfold Csv.join, CRLF.
  rewrite !append_assoc. reflexivity.
Qed.

Lemma writerows_report_lines (w : world) (images : list string) :
  Csv.writerows (row_fields <$> (report_row w <$> images))
  = text_of_lines (report_line w <$> images).
Proof.
  unfold Csv.writerows, text_of_lines.
  induction images as [|img rest IH]; [reflexivity|].
  rewrite !fmap_cons. cbn [foldr]. rewrite IH, writerow_report. reflexivity.
Qed.

Lemma csv_text_report_lines (w : world) (images : list string) :
  csv_text (report_row w <$> images)
  = text_of_lines (header_line :: (report_line w <$> images)).
Proof.
  unfold csv_text. rewrite writerows_report_lines. reflexivity.
Qed.

(** C8: after a run over a non-empty inventory whose scans all complete and
    whose file can be written, [grype-per-image-report.csv] holds the
    header line [Image,Critical,High,Medium,Low] and then one line per
    image, in the order of the scan, made of the image reference and the
    decimal forms of its four counts, separated by commas: the text of the
    file is these lines one after the other and nothing else. *)
Theorem csv_report_rows (w : world) (fs0 : gmap string string) (out : string) :
  let images := unique_images (splitlines out) in
  let rows := report_row w <$> images in
  exec w kubectl_cmd = Completed 0 out →
  images ≠ [] →
  scans_complete w images →
  open_w w csv_file = Writable →
  status (run w fs0) = Exited 0
  ∧ fs (run w fs0) !! csv_file = Some (csv_text rows)
  ∧ csv_text rows
    = "Image,Critical,High,Medium,Low" +:+ CRLF
      +:+ Csv.writerows (row_fields <$> rows)
  ∧ Image <$> rows = images
  ∧ Forall2 (λ img line,
       line = Csv.field img
              +:+ "," +:+ str (count (counts_of w img) "Critical")
              +:+ "," +:+ str (count (counts_of w img) "High")
              +:+ "," +:+ str (count (counts_of w img) "Medium")
              +:+ "," +:+ str (count (counts_of w img) "Low") +:+ CRLF)
     images (Csv.writerow <$> (row_fields <$> rows))
  ∧ fs (run w fs0) !! csv_file
    = Some (text_of_lines
              (("Image,Critical,High,Medium,Low" +:+ CRLF)
                 :: ((λ img,
                        Csv.field img
                        +:+ "," +:+ str (count (counts_of w img) "Critical")
                        +:+ "," +:+ str (count (counts_of w img) "High")
                        +:+ "," +:+ str (count (counts_of w img) "Medium")
                        +:+ "," +:+ str (count (counts_of w img) "Low")
                        +:+ CRLF) <$> images))).
Proof.
  intros images rows Hexec Hne Hall Hopen.
  rewrite (run_complete w fs0 out Hexec Hne Hall), Hopen. cbn [status fs].
  split; [reflexivity|]. split; [apply lookup_insert_eq|].
  split; [reflexivity|]. subst rows. split; [|split].
  - rewrite <- list_fmap_compose. clear. induction images as [|i l IH];
      [reflexivity | simpl; f_equal; exact IH].
  - clear. induction images as [|i l IH]; simpl; constructor; [|exact IH].
    rewrite writerow_report. reflexivity.
  - rewrite lookup_insert_eq, csv_text_report_lines. reflexivity.
Qed.

Lemma csv_report_rows_witness :
  let out := unlines ["redis:7"; "nginx:1.21"; ""; "redis:7"] in
  let w := cluster (Completed 0 out)
             [("nginx:1.21",
               Completed 0 (grype_json ["Critical"; "medium"; "Medium"]));
              ("redis:7",
               Completed 0 (grype_json ["high"; "Low"; "High"; "HIGH"]))]
             Writable in
  unique_images (splitlines out) = ["nginx:1.21"; "redis:7"]
  ∧ fs (run w ∅) !! csv_file
    = Some (csv_text [ImageReport "nginx:1.21" 1 0 2 0;
                      ImageReport "redis:7" 0 3 0 1])
  ∧ fs (run w ∅) !! csv_file
    = Some ("Image,Critical,High,Medium,Low" +:+ CRLF
            +:+ "nginx:1.21,1,0,2,0" +:+ CRLF
            +:+ "redis:7,0,3,0,1" +:+ CRLF).
Proof.
  intros out w. split; [vm_compute; reflexivity|].
  assert (Hne : unique_images (splitlines out) ≠ []) by (vm_compute; discriminate).
  assert (Hall : scans_complete w (unique_images (splitlines out))).
  { let l := eval vm_compute in (unique_images (splitlines out)) in
    change (unique_images (splitlines out)) with l.
    repeat constructor; eexists; vm_compute; reflexivity. }
  destruct (csv_report_rows w ∅ out eq_refl Hne Hall eq_refl)
    as (_ & Hfile & _ & _ & _ & Htext).
  split; [rewrite Hfile | rewrite Htext]; vm_compute; reflexivity.
Defined.

(** The file of a run over two images, as text. *)
Example csv_text_two_images :
  csv_text [ImageReport "nginx:1.21" 1 0 2 0; ImageReport "redis:7" 0 3 0 1]
  = "Image,Critical,High,Medium,Low" +:+ CRLF
    +:+ "nginx:1.21,1,0,2,0" +:+ CRLF
    +:+ "redis:7,0,3,0,1" +:+ CRLF.
Proof. vm_compute. reflexivity. Qed.

(** An image reference that holds a comma is written between quotes. *)
Example csv_field_quoted :
  Csv.writerow (row_fields (ImageReport "a,b" 0 0 0 7))
  = String DQUOTE "a,b" +:+ String DQUOTE ",0,0,0,7" +:+ CRLF.
Proof. vm_compute. reflexivity. Qed.

(** ** A report file that cannot be written *)

(** C9 (as the code has it): when the report file cannot be created or
    written, the script does not handle the error: after the cumulative
    summary has been printed on standard output the process ends with the
    uncaught [OSError], a non-zero exit code; the completion line is not
    printed and the diagnostic stream holds the scan warnings only. *)
Theorem write_error_uncaught (w : world) (fs0 : gmap string string)
    (out : string) :
  let images := unique_images (splitlines out) in
  exec w kubectl_cmd = Completed 0 out →
  images ≠ [] →
  scans_complete w images →
  open_w w csv_file ≠ Writable →
  status (run w fs0) = Uncaught OSError
  ∧ exit_code (run w fs0) = 1
  ∧ KubeScan.out (run w fs0)
    = progress_lines images
      ++ [Line summary_title; summary_grid (final_total w images)]
  ∧ err (run w fs0) = all_warnings w images
  ∧ (∀ line, line ∈ err (run w fs0) →
       ∃ img, img ∈ images ∧ line = scan_warning img)
  ∧ (open_w w csv_file = OpenFails → fs (run w fs0) = fs0).
Proof.
  intros images Hexec Hne Hall Hopen.
  rewrite (run_complete w fs0 out Hexec Hne Hall).
  assert (Hwarn : ∀ line, line ∈ all_warnings w images →
            ∃ img, img ∈ images ∧ line = scan_warning img).
  { unfold all_warnings. clear. induction images as [|i l IH]; simpl.
    - intros line Hin. apply elem_of_nil in Hin. contradiction.
    - intros line Hin. apply elem_of_app in Hin as [Hin|Hin].
      + exists i. split; [left|].
        destruct (warnings_of_cases w i) as [Hw|Hw]; rewrite Hw in Hin.
        * apply elem_of_nil in Hin. contradiction.
        * apply list_elem_of_singleton in Hin. exact Hin.
      + destruct (IH line Hin) as (img & Himg & ->).
        exists img. split; [right; exact Himg | reflexivity]. }
  destruct (open_w w csv_file) as [| |written]; [contradiction| |];
    simpl; repeat split; try assumption; try reflexivity; discriminate.
Qed.

Lemma write_error_uncaught_witness :
  let out := unlines ["nginx:1.21"; "redis:7"] in
  let w := cluster (Completed 0 out)
             [("nginx:1.21", Completed 0 (grype_json ["Critical"; "High"]));
              ("redis:7", Completed 1 "")]
             OpenFails in
  status (run w ∅) = Uncaught OSError
  ∧ err (run w ∅) = [scan_warning "redis:7"].
Proof.
  intros out w.
  assert (Hne : unique_images (splitlines out) ≠ []) by (vm_compute; discriminate).
  assert (Hall : scans_complete w (unique_images (splitlines out))).
  { let l := eval vm_compute in (unique_images (splitlines out)) in
    change (unique_images (splitlines out)) with l.
    repeat constructor; eexists; vm_compute; reflexivity. }
  assert (Hopen : open_w w csv_file ≠ Writable) by discriminate.
  destruct (write_error_uncaught w ∅ out eq_refl Hne Hall Hopen)
    as (Hstatus & _ & _ & Herr & _).
  split; [exact Hstatus|]. rewrite Herr. vm_compute. reflexivity.
Defined.

(** C9 (as stated) fails: nginx:1.21 is scanned, its row is computed, the
    file cannot be opened; the run ends with the uncaught error and an
    empty diagnostic stream, the row is surfaced nowhere on it. *)
Lemma write_error_loses_report :
  let w := cluster (Completed 0 (unlines ["nginx:1.21"]))
             [("nginx:1.21", Completed 0 (grype_json ["Critical"; "High"]))]
             OpenFails in
  open_w w csv_file = OpenFails
  ∧ (∃ total, (main_loop w ["nginx:1.21"] (∅, []) io0).1
              = Ok (total, [ImageReport "nginx:1.21" 1 1 0 0]))
  ∧ run w ∅
    = Outcome (Uncaught OSError)
        [Line (progress "nginx:1.21"); Line summary_title;
         Grid ["Critical"; "High"; "Medium"; "Low"] [[1; 1; 0; 0]]]
        [] ∅
  ∧ ¬ report_on_stderr (run w ∅) [ImageReport "nginx:1.21" 1 1 0 0].
Proof.
  intros w.
  assert (Hrun : run w ∅
    = Outcome (Uncaught OSError)
        [Line (progress "nginx:1.21"); Line summary_title;
         Grid ["Critical"; "High"; "Medium"; "Low"] [[1; 1; 0; 0]]]
        [] ∅) by (vm_compute; reflexivity).
  split; [reflexivity|]. split; [eexists; vm_compute; reflexivity|].
  split; [exact Hrun|].
  rewrite Hrun. unfold report_on_stderr. simpl. intros Hall.
  apply Forall_cons in Hall as [Hex _]. apply Exists_nil in Hex. exact Hex.
Qed.

(** * Further properties of the collector *)

Lemma unique_images_sorted_set_parts (lines : list string) :
  ("" ∉ unique_images lines)
  ∧ NoDup (unique_images lines)
  ∧ StronglySorted String.le (unique_images lines)
  ∧ (∀ x, x ∈ unique_images lines ↔ x ∈ lines ∧ x ≠ "").
Proof.
  split; [|split; [|split]].
  - rewrite elem_of_unique_images. tauto.
  - unfold unique_images, sorted.
    rewrite merge_sort_Permutation. apply NoDup_elements.
  - apply StronglySorted_merge_sort; apply _.
  - apply elem_of_unique_images.
Qed.

(** X1: when the inventory query cannot be started or exits with a
    non-zero code, the exception leaves [main]: the process ends with it,
    nothing has been printed on either stream and no file is touched. *)
Theorem collector_failure_aborts (w : world) (fs0 : gmap string string)
    (e : exn) :
  (exec w kubectl_cmd = SpawnError ∧ e = OSError)
  ∨ (∃ rc out, exec w kubectl_cmd = Completed rc out ∧ rc ≠ 0
               ∧ e = CalledProcessError rc) →
  run w fs0 = Outcome (Uncaught e) [] [] fs0
  ∧ exit_code (run w fs0) = 1.
Proof.
  intros Hfail.
  assert (Hget : get_unique_images w (Io [] [] fs0) = (Raise e, Io [] [] fs0)).
  { rewrite get_unique_images_run.
    destruct Hfail as [[-> ->]|(rc & out & -> & Hrc & ->)]; [reflexivity|].
    destruct (Z.eqb_spec rc 0); [contradiction | reflexivity]. }
  assert (Hrun : run w fs0 = Outcome (Uncaught e) [] [] fs0).
  { unfold run, main, bind. rewrite Hget.
    destruct Hfail as [[_ ->]|(rc & _ & _ & _ & ->)]; reflexivity. }
  rewrite Hrun. split; reflexivity.
Qed.

Lemma collector_failure_aborts_witness :
  let w := cluster (Completed 1 (unlines ["nginx:1.21"]))
             [("nginx:1.21", Completed 0 "{}")] Writable in
  run w {[ csv_file := "old" ]}
  = Outcome (Uncaught (CalledProcessError 1)) [] [] {[ csv_file := "old" ]}.
Proof.
  intros w.
  apply (collector_failure_aborts w {[ csv_file := "old" ]} (CalledProcessError 1)).
  right. exists 1, (unlines ["nginx:1.21"]).
  split; [reflexivity|]. split; [lia | reflexivity].
Defined.

(** X2: the result depends only on which non-empty lines occur: two
    outputs with the same non-empty lines, in any order and with any
    repetitions or blank lines, give the same list of images. *)
Theorem unique_images_same_lines (l l' : list string) :
  (∀ x, x ≠ "" → (x ∈ l ↔ x ∈ l')) →
  unique_images l = unique_images l'.
Proof.
  intros Hsame. unfold unique_images, set. f_equal. apply set_eq. intros x.
  rewrite !elem_of_list_to_set, !list_elem_of_In, !filter_In,
    !truthy_nonempty, <- !list_elem_of_In.
  specialize (Hsame x). tauto.
Qed.

Lemma unique_images_same_lines_witness :
  unique_images ["redis:7"; ""; "nginx:1.21"; "redis:7"]
  = unique_images ["nginx:1.21"; "redis:7"; "nginx:1.21"].
Proof.
  apply unique_images_same_lines. intros x Hx.
  rewrite !elem_of_cons, !elem_of_nil. intuition congruence.
Defined.

(** X3: a list that is already sorted, without duplicates and without an
    empty string is returned as it is; in particular the collector's
    parsing is idempotent. *)
Theorem unique_images_fixpoint (l : list string) :
  StronglySorted String.le l → NoDup l → "" ∉ l →
  unique_images l = l
  ∧ ∀ lines, unique_images (unique_images lines) = unique_images lines.
Proof.
  assert (Hfix : ∀ k, StronglySorted String.le k → NoDup k → "" ∉ k →
            unique_images k = k).
  { intros k Hsorted Hnodup Hblank.
    destruct (unique_images_sorted_set_parts k) as (_ & Hnd & Hss & Hin).
    apply (StronglySorted_unique String.le); [exact Hss | exact Hsorted |].
    apply NoDup_Permutation; [exact Hnd | exact Hnodup |].
    intros x. rewrite Hin. split; [tauto|].
    intros Hx. split; [exact Hx|]. intros ->. contradiction. }
  intros Hsorted Hnodup Hblank. split; [apply Hfix; assumption|].
  intros lines.
  destruct (unique_images_sorted_set_parts lines) as (Hb & Hnd & Hss & _).
  apply Hfix; assumption.
Qed.

Lemma unique_images_fixpoint_witness :
  unique_images ["nginx:1.21"; "redis:7"] = ["nginx:1.21"; "redis:7"].
Proof.
  assert (Hsorted : StronglySorted String.le ["nginx:1.21"; "redis:7"]).
  { repeat constructor. }
  assert (Hnodup : NoDup ["nginx:1.21"; "redis:7"]).
  { repeat constructor; rewrite ?elem_of_cons, ?elem_of_nil; intuition congruence. }
  assert (Hblank : "" ∉ ["nginx:1.21"; "redis:7"]).
  { rewrite !elem_of_cons, elem_of_nil. intuition congruence. }
  destruct (unique_images_fixpoint _ Hsorted Hnodup Hblank) as [Hfix _].
  exact Hfix.
Defined.

Lemma splitlines_go_plain (c : ascii) (s cur : string) (pending : bool) :
  is_plain c = true →
  splitlines_go (String c s) cur pending = splitlines_go s (String c cur) true.
Proof.
  intros Hc.
  destruct c as [[] [] [] [] [] [] [] []]; try discriminate Hc; reflexivity.
Qed.

Lemma rev_app_rev_app (s t u : string) :
  String.rev_app (String.rev_app s t) u = String.rev_app t (s +:+ u).
Proof.
  revert t u. induction s as [|c s IH]; intros t u; [reflexivity|].
  simpl String.rev_app. rewrite IH. reflexivity.
Qed.

Lemma splitlines_go_line (s rest cur : string) (pending : bool) :
  plain_line s = true →
  splitlines_go (s +:+ String LF rest) cur pending
  = String.rev (String.rev_app s cur) :: splitlines_go rest "" false.
Proof.
  revert cur pending. induction s as [|c s IH]; intros cur pending Hs.
  - reflexivity.
  - unfold plain_line in Hs. simpl in Hs.
    rewrite negb_orb in Hs. apply andb_true_iff in Hs as [Hc Hs].
    rewrite negb_involutive in Hc.
    change (String c s +:+ String LF rest) with (String c (s +:+ String LF rest)).
    rewrite (splitlines_go_plain c _ cur pending Hc).
    rewrite IH by exact Hs. reflexivity.
Qed.

Lemma splitlines_unlines (lines : list string) :
  forallb plain_line lines = true → splitlines (unlines lines) = lines.
Proof.
  unfold splitlines. induction lines as [|l ls IH]; intros Hall; [reflexivity|].
  simpl in Hall. apply andb_true_iff in Hall as [Hl Hls].
  simpl unlines. rewrite (splitlines_go_line l _ "" false Hl), (IH Hls).
  f_equal. unfold String.rev. rewrite rev_app_rev_app. simpl.
  clear. induction l as [|c l IH]; [reflexivity|].
  change (String c (l +:+ "") = String c l). f_equal. exact IH.
Qed.

(** X4: when the inventory query prints printable ASCII references, each
    followed by a newline, the collector returns exactly the sorted set of
    these references and changes nothing. *)
Theorem get_unique_images_of_lines (w : world) (lines : list string) (st : io) :
  exec w kubectl_cmd = Completed 0 (unlines lines) →
  forallb plain_line lines = true →
  get_unique_images w st = (Ok (unique_images lines), st)
  ∧ ∀ x, x ∈ unique_images lines ↔ x ∈ lines ∧ x ≠ "".
Proof.
  intros Hexec Hplain. split; [|apply elem_of_unique_images].
  rewrite get_unique_images_run, Hexec. simpl.
  rewrite (splitlines_unlines lines Hplain). reflexivity.
Qed.

Lemma get_unique_images_of_lines_witness :
  let lines := ["redis:7"; "ghcr.io/org/app@sha256:0a1b"; ""; "redis:7"] in
  let w := cluster (Completed 0 (unlines lines)) [] Writable in
  get_unique_images w io0
  = (Ok ["ghcr.io/org/app@sha256:0a1b"; "redis:7"], io0).
Proof.
  intros lines w.
  destruct (get_unique_images_of_lines w lines io0 eq_refl eq_refl) as [Hget _].
  rewrite Hget. vm_compute. reflexivity.
Defined.

(** * Further properties of the scanner *)

(** X5: scanning an image prints nothing on standard output, touches no
    file, and adds to the diagnostic stream nothing or the one warning of
    that image; what it returns or raises does not depend on the state it
    starts from. *)
Theorem scan_image_effects (w : world) (image : string) (st st' : io) :
  stdout_log (scan_image w image st).2 = stdout_log st
  ∧ files (scan_image w image st).2 = files st
  ∧ (stderr_log (scan_image w image st).2 = stderr_log st
     ∨ stderr_log (scan_image w image st).2
       = stderr_log st ++ [scan_warning image])
  ∧ (scan_image w image st).1 = (scan_image w image st').1.
Proof.
  rewrite (scan_image_frame w image st), (scan_image_frame w image st'). simpl.
  split; [reflexivity|]. split; [reflexivity|]. split; [|reflexivity].
  destruct (warnings_of_cases w image) as [-> | ->];
    [left; apply app_nil_r | right; reflexivity].
Qed.

(** X6: [scan_image] returns normally only when the scanner ran, its
    output was decoded, and it either exited with a non-zero code or
    printed a JSON object; it writes its warning exactly when the scanner
    ran, its output was decoded and its exit code is not zero; undecodable
    output raises [UnicodeDecodeError] whatever the exit code, without a
    warning; and the exception of a failed command never leaves it. *)
Theorem scan_image_outcomes (w : world) (image : string) (st : io) :
  ((∃ matches, (scan_image w image st).1 = Ok matches)
   → ∃ rc out, exec w (grype_cmd image) = Completed rc out
       ∧ (rc ≠ 0 ∨ ∃ members, Json.loads out = Some (JObject members)))
  ∧ (stderr_log (scan_image w image st).2 = stderr_log st ++ [scan_warning image]
     ↔ ∃ rc out, exec w (grype_cmd image) = Completed rc out ∧ rc ≠ 0)
  ∧ (∀ rc, exec w (grype_cmd image) = Undecodable rc →
       scan_image w image st = (Raise UnicodeDecodeError, st))
  ∧ (∀ rc, (scan_image w image st).1 ≠ Raise (CalledProcessError rc)).
Proof.
  rewrite scan_image_run.
  assert (Hlen : ∀ l : list string, l ≠ l ++ [scan_warning image]).
  { intros l H. apply (f_equal length) in H. rewrite length_app in H.
    simpl in H. lia. }
  destruct (exec w (grype_cmd image)) as [| |rc'|rc out].
  1-3: (split; [|split; [|split]];
    [ intros [m Hm]; discriminate
    | split; [intros H; apply Hlen in H; contradiction
             |intros (rc & out & H & _); discriminate]
    | intros rc H; try discriminate H; reflexivity
    | discriminate ]).
  destruct (Z.eqb_spec rc 0) as [->|Hrc].
  - assert (Hwarn : stderr_log st = stderr_log st ++ [scan_warning image]
             ↔ ∃ rc' out', Completed 0 out = Completed rc' out' ∧ rc' ≠ 0).
    { split; [intros H; apply Hlen in H; contradiction|].
      intros (rc' & out' & [= <- _] & Hne). contradiction. }
    destruct (Json.loads out) as [data|] eqn:Hloads.
    + split; [|split; [exact Hwarn|split; [discriminate|]]].
      * intros [m Hm]. exists 0, out. split; [reflexivity|]. right.
        rewrite Hloads. destruct data; try discriminate Hm. eauto.
      * intros rc'. destruct data; discriminate.
    + split; [|split; [exact Hwarn|split; discriminate]].
      intros [m Hm]. discriminate.
  - split; [|split; [|split; discriminate]].
    + intros _. exists rc, out. tauto.
    + split; [|reflexivity]. intros _. exists rc, out. tauto.
Qed.

(** X7: when the scanner exits with code zero and prints JSON that is not
    an object, [scan_image] raises [AttributeError] without a warning; the
    loop stops at that image and the images after it are not scanned. *)
Theorem scan_non_object_raises (w : world) (image out : string) (data : json)
    (st : io) (acc : loop_state) (rest : list string) :
  exec w (grype_cmd image) = Completed 0 out →
  Json.loads out = Some data →
  (∀ members, data ≠ JObject members) →
  scan_image w image st = (Raise AttributeError, st)
  ∧ main_loop w (image :: rest) acc st
    = (Raise AttributeError, say (progress image) st).
Proof.
  intros Hexec Hloads Hnot.
  assert (Hscan : ∀ st', scan_image w image st' = (Raise AttributeError, st')).
  { intros st'. rewrite scan_image_run, Hexec, Hloads. simpl.
    destruct data; try reflexivity. exfalso. exact (Hnot _ eq_refl). }
  split; [apply Hscan|].
  destruct acc as [total per_image].
  rewrite main_loop_cons, loop_body_run, Hscan. reflexivity.
Qed.

Lemma scan_non_object_raises_witness :
  let w := cluster (Completed 0 (unlines ["nginx:1.21"; "redis:7"]))
             [("nginx:1.21", Completed 0 "[]"); ("redis:7", Completed 0 "{}")]
             Writable in
  main_loop w ["nginx:1.21"; "redis:7"] (∅, []) io0
  = (Raise AttributeError, say (progress "nginx:1.21") io0).
Proof.
  intros w.
  apply (scan_non_object_raises w "nginx:1.21" "[]" (JArray []) io0 (∅, [])
           ["redis:7"] eq_refl eq_refl).
  intros members. discriminate.
Defined.

(** An image reference that holds a NUL byte cannot be passed to the
    scanner: the run ends there with the uncaught [ValueError]. *)
Example nul_in_reference_aborts :
  let bad := String "a" (String "000" "b") in
  let w := World (λ cmd, if decide (cmd = kubectl_cmd)
                         then Completed 0 (unlines [bad])
                         else if decide (cmd = grype_cmd bad)
                              then BadArguments else SpawnError)
                 (λ _, Writable) in
  run w ∅ = Outcome (Uncaught ValueError) [Line (progress bad)] [] ∅.
Proof. vm_compute. reflexivity. Qed.

(** * Further properties of the summary *)

Lemma severity_of_malformed (m : json) :
  finding_object m = false → severity_of m = Raise AttributeError.
Proof.
  unfold finding_object, severity_of, py_get.
  destruct m as [| | | | |ms]; try reflexivity.
  destruct (dict_get "vulnerability" ms) as [[| | | | |vs]|]; simpl;
    try reflexivity; try discriminate.
  destruct (dict_get "severity" vs) as [[| | | | |]|]; simpl;
    try reflexivity; discriminate.
Qed.

Lemma summarize_array (ms : list json) :
  summarize (JArray ms) = summarize_loop ms ∅.
Proof. reflexivity. Qed.

Lemma summarize_loop_malformed (ms : list json) (cnt : gmap string Z) :
  forallb finding_object ms = false →
  summarize_loop ms cnt = Raise AttributeError.
Proof.
  revert cnt. induction ms as [|m ms IH]; intros cnt Hbad; [discriminate|].
  simpl in *. unfold summarize_step.
  destruct (finding_object m) eqn:Hm.
  - rewrite (severity_of_finding m Hm).
    destruct (bool_decide (normalized m ∈ SEVERITIES)); apply IH; exact Hbad.
  - rewrite (severity_of_malformed m Hm). reflexivity.
Qed.

(** X8: on a list, [summarize] returns a count exactly when every element
    is a finding object; one element that is not (not an object, a
    [vulnerability] that is not an object, a [severity] that is not a
    string) makes it raise [AttributeError], whatever the other elements. *)
Theorem summarize_list_outcome (ms : list json) :
  match summarize (JArray ms) with
  | Ok _ => forallb finding_object ms = true
  | Raise e => e = AttributeError ∧ forallb finding_object ms = false
  end.
Proof.
  destruct (forallb finding_object ms) eqn:Hall.
  - destruct (summarize_loop_counts ms ∅ Hall) as (cnt & Hcnt & _).
    rewrite summarize_array, Hcnt. reflexivity.
  - rewrite summarize_array, (summarize_loop_malformed ms ∅ Hall).
    split; reflexivity.
Qed.

Lemma occurrences_nonneg (sev : string) (ms : list json) :
  0 ≤ occurrences sev ms.
Proof. unfold occurrences. lia. Qed.

(** The count [summarize] returns, key by key. *)
Lemma summarize_loop_lookup (ms : list json) (cnt cnt' : gmap string Z)
    (k : string) :
  summarize_loop ms cnt = Ok cnt' →
  cnt' !! k
  = if decide (k ∈ SEVERITIES ∧ 0 < occurrences k ms)
    then Some (count cnt k + occurrences k ms)
    else cnt !! k.
Proof.
  revert cnt. induction ms as [|m ms IH]; intros cnt Hloop.
  - injection Hloop as <-. rewrite decide_False; [reflexivity|].
    unfold occurrences; simpl. lia.
  - simpl in Hloop. unfold summarize_step in Hloop.
    destruct (finding_object m) eqn:Hm;
      [|rewrite (severity_of_malformed m Hm) in Hloop; discriminate].
    rewrite (severity_of_finding m Hm) in Hloop.
    pose proof (occurrences_nonneg k ms) as Hnn.
    rewrite occurrences_cons.
    destruct (bool_decide (normalized m ∈ SEVERITIES)) eqn:Hrec.
    + apply bool_decide_eq_true in Hrec.
      rewrite (IH _ Hloop), count_insert, lookup_insert. clear IH Hloop.
      repeat case_decide; subst; try reflexivity; try (f_equal; lia);
        try (f_equal; intuition lia); exfalso; intuition lia.
    + apply bool_decide_eq_false in Hrec.
      rewrite (IH _ Hloop). clear IH Hloop.
      repeat case_decide; subst; try reflexivity; try (f_equal; lia);
        try (f_equal; intuition lia); exfalso; intuition lia.
Qed.

Lemma summarize_lookup (ms : list json) (cnt : gmap string Z) (k : string) :
  summarize (JArray ms) = Ok cnt →
  cnt !! k
  = if decide (k ∈ SEVERITIES ∧ 0 < occurrences k ms)
    then Some (occurrences k ms) else None.
Proof.
  rewrite summarize_array. intros Hsum.
  rewrite (summarize_loop_lookup ms ∅ cnt k Hsum).
  rewrite count_empty, lookup_empty. reflexivity.
Qed.

(** X9: the dictionary [summarize] returns holds a key exactly for the
    severities that occur, each with the number of its findings: it never
    holds a zero and never a key outside the four severities. *)
Theorem summarize_keys (ms : list json) (cnt : gmap string Z) (k : string) :
  summarize (JArray ms) = Ok cnt →
  (is_Some (cnt !! k) ↔ k ∈ SEVERITIES ∧ ∃ m, m ∈ ms ∧ normalized m = k)
  ∧ (∀ n, cnt !! k = Some n → n = occurrences k ms ∧ 0 < n).
Proof.
  intros Hsum. rewrite (summarize_lookup ms cnt k Hsum).
  assert (Hpos : 0 < occurrences k ms ↔ ∃ m, m ∈ ms ∧ normalized m = k).
  { unfold occurrences. split.
    - intros Hlen.
      destruct (filter (λ m, normalized m = k) ms) as [|m l] eqn:Hf;
        [simpl in Hlen; lia|].
      assert (Hmem : m ∈ filter (λ m, normalized m = k) ms)
        by (rewrite Hf; left).
      apply list_elem_of_filter in Hmem. exists m. tauto.
    - intros (m & Hin & Hm).
      assert (Hmem : m ∈ filter (λ m, normalized m = k) ms)
        by (apply list_elem_of_filter; tauto).
      destruct (filter (λ m, normalized m = k) ms);
        [apply elem_of_nil in Hmem; contradiction | simpl; lia]. }
  destruct (decide (k ∈ SEVERITIES ∧ 0 < occurrences k ms)) as [[Hk Hocc]|Hno].
  - split; [|intros n [= <-]; tauto].
    split; [intros _; split; [exact Hk | apply Hpos; exact Hocc] | eauto].
  - split; [|discriminate].
    split; [intros [x Hx]; discriminate|].
    intros [Hk Hex]. exfalso. apply Hno. split; [exact Hk | apply Hpos, Hex].
Qed.

Lemma summarize_keys_witness :
  ∃ cnt, summarize (JArray [finding "high"; finding "none"; finding "High"])
         = Ok cnt
    ∧ cnt !! "High" = Some 2 ∧ cnt !! "Low" = None.
Proof.
  destruct (summarize (JArray [finding "high"; finding "none"; finding "High"]))
    as [cnt|e] eqn:Hsum; [|vm_compute in Hsum; discriminate].
  exists cnt. split; [reflexivity|].
  pose proof (summarize_keys _ cnt "High" Hsum) as [HsomeH HvalH].
  pose proof (summarize_keys _ cnt "Low" Hsum) as [HsomeL _].
  split.
  - destruct (cnt !! "High") as [n|] eqn:Hn.
    + destruct (HvalH n eq_refl) as [-> _]. reflexivity.
    + exfalso. apply (is_Some_None (A:=Z)). apply HsomeH.
      split; [unfold SEVERITIES; rewrite !elem_of_cons; tauto|].
      exists (finding "High"). split; [|reflexivity].
      rewrite !elem_of_cons. tauto.
  - destruct (cnt !! "Low") as [n|] eqn:Hn; [|reflexivity].
    exfalso. destruct HsomeL as [HsomeL _].
    destruct (HsomeL (ltac:(eexists; reflexivity))) as (_ & m & Hin & Hm).
    rewrite !elem_of_cons, elem_of_nil in Hin.
    destruct Hin as [->|[->|[->|[]]]]; discriminate Hm.
Defined.

Lemma occurrences_Permutation (sev : string) (ms ms' : list json) :
  ms ≡ₚ ms' → occurrences sev ms = occurrences sev ms'.
Proof.
  intros Hperm. unfold occurrences. rewrite Hperm. reflexivity.
Qed.

Lemma forallb_Permutation (ms ms' : list json) :
  ms ≡ₚ ms' → forallb finding_object ms = forallb finding_object ms'.
Proof.
  induction 1 as [|x l l' _ IH|x y l|l l' l'' _ IH1 _ IH2]; simpl.
  - reflexivity.
  - rewrite IH. reflexivity.
  - destruct (finding_object x), (finding_object y); reflexivity.
  - congruence.
Qed.

(** X10: the summary does not depend on the order in which the scanner
    lists its findings: two lists that are permutations of each other give
    the same dictionary, or both make [summarize] raise. *)
Theorem summarize_order_independent (ms ms' : list json) :
  ms ≡ₚ ms' → summarize (JArray ms) = summarize (JArray ms').
Proof.
  intros Hperm. pose proof (forallb_Permutation ms ms' Hperm) as Hwf.
  destruct (forallb finding_object ms) eqn:Hall.
  - symmetry in Hwf.
    destruct (summarize_loop_counts ms ∅ Hall) as (cnt & Hcnt & _).
    destruct (summarize_loop_counts ms' ∅ Hwf) as (cnt' & Hcnt' & _).
    rewrite !summarize_array, Hcnt, Hcnt'. f_equal. apply map_eq. intros k.
    rewrite <- summarize_array in Hcnt, Hcnt'.
    rewrite (summarize_lookup ms cnt k Hcnt), (summarize_lookup ms' cnt' k Hcnt').
    rewrite (occurrences_Permutation k ms ms' Hperm). reflexivity.
  - symmetry in Hwf. rewrite !summarize_array.
    rewrite (summarize_loop_malformed ms ∅ Hall).
    rewrite (summarize_loop_malformed ms' ∅ Hwf). reflexivity.
Qed.

Lemma summarize_order_independent_witness :
  summarize (JArray [finding "low"; finding "HIGH"; JObject []])
  = summarize (JArray [JObject []; finding "low"; finding "HIGH"]).
Proof.
  apply summarize_order_independent.
  change [JObject []; finding "low"; finding "HIGH"]
    with ([JObject []] ++ [finding "low"; finding "HIGH"]).
  change [finding "low"; finding "HIGH"; JObject []]
    with ([finding "low"; finding "HIGH"] ++ [JObject []]).
  apply Permutation_app_comm.
Defined.

Lemma occurrences_app (sev : string) (ms1 ms2 : list json) :
  occurrences sev (ms1 ++ ms2) = occurrences sev ms1 + occurrences sev ms2.
Proof.
  unfold occurrences. rewrite filter_app, length_app. lia.
Qed.

(** X11: summarising two lists of findings together gives, severity by
    severity, what accumulating their two summaries gives: scanning in one
    piece or in two does not change the counts. *)
Theorem summarize_app (ms1 ms2 : list json) (c1 c2 c : gmap string Z) :
  summarize (JArray ms1) = Ok c1 →
  summarize (JArray ms2) = Ok c2 →
  summarize (JArray (ms1 ++ ms2)) = Ok c →
  counts_eq c (accumulate c1 c2)
  ∧ ∀ sev, count c sev = count c1 sev + count c2 sev.
Proof.
  intros H1 H2 H.
  assert (Hall : ∀ sev, count c sev = count c1 sev + count c2 sev).
  { intros sev. unfold count.
    rewrite (summarize_lookup _ _ sev H1), (summarize_lookup _ _ sev H2),
      (summarize_lookup _ _ sev H), occurrences_app.
    pose proof (occurrences_nonneg sev ms1). pose proof (occurrences_nonneg sev ms2).
    repeat case_decide; simpl; intuition lia. }
  split; [|exact Hall].
  intros sev Hsev. rewrite count_accumulate by exact Hsev. apply Hall.
Qed.

Lemma summarize_app_witness :
  ∃ c1 c2 c,
    summarize (JArray [finding "high"; finding "low"]) = Ok c1
    ∧ summarize (JArray [finding "High"]) = Ok c2
    ∧ summarize (JArray ([finding "high"; finding "low"] ++ [finding "High"]))
      = Ok c
    ∧ count c "High" = count c1 "High" + count c2 "High".
Proof.
  destruct (summarize (JArray [finding "high"; finding "low"]))
    as [c1|] eqn:H1; [|vm_compute in H1; discriminate].
  destruct (summarize (JArray [finding "High"]))
    as [c2|] eqn:H2; [|vm_compute in H2; discriminate].
  destruct (summarize (JArray ([finding "high"; finding "low"] ++ [finding "High"])))
    as [c|] eqn:H; [|vm_compute in H; discriminate].
  exists c1, c2, c. repeat (split; [reflexivity|]).
  apply (summarize_app _ _ c1 c2 c H1 H2 H).
Defined.

Lemma occurrences_le_length (sev : string) (ms : list json) :
  occurrences sev ms ≤ Z.of_nat (length ms).
Proof.
  unfold occurrences. pose proof (length_filter (λ m, normalized m = sev) ms). lia.
Qed.

(** X12: every count of a summary lies between zero and the number of
    findings, and so does the sum of the four buckets. *)
Theorem summarize_bounds (ms : list json) (cnt : gmap string Z) :
  summarize (JArray ms) = Ok cnt →
  (∀ sev, 0 ≤ count cnt sev ≤ Z.of_nat (length ms))
  ∧ 0 ≤ count cnt "Critical" + count cnt "High"
        + count cnt "Medium" + count cnt "Low" ≤ Z.of_nat (length ms).
Proof.
  intros Hsum.
  assert (Hcount : ∀ sev, count cnt sev = 0 ∨ count cnt sev = occurrences sev ms).
  { intros sev. unfold count. rewrite (summarize_lookup _ _ sev Hsum).
    case_decide; simpl; tauto. }
  split.
  - intros sev. pose proof (occurrences_nonneg sev ms).
    pose proof (occurrences_le_length sev ms).
    destruct (Hcount sev) as [-> | ->]; lia.
  - assert (Hocc : ∀ sev, sev ∈ SEVERITIES → count cnt sev = occurrences sev ms).
    { intros sev Hsev. unfold count. rewrite (summarize_lookup _ _ sev Hsum).
      pose proof (occurrences_nonneg sev ms).
      case_decide; simpl; [reflexivity|]. intuition lia. }
    destruct four_severities as (IC & IH & IM & IL).
    rewrite (Hocc _ IC), (Hocc _ IH), (Hocc _ IM), (Hocc _ IL).
    rewrite <- recognized_occurrences. unfold recognized.
    pose proof (length_filter (λ m, normalized m ∈ SEVERITIES) ms). lia.
Qed.

Lemma summarize_bounds_witness :
  ∃ cnt, summarize (JArray [finding "low"; finding "x"; finding "LOW"]) = Ok cnt
    ∧ 0 ≤ count cnt "Low" ≤ 3.
Proof.
  destruct (summarize (JArray [finding "low"; finding "x"; finding "LOW"]))
    as [cnt|] eqn:Hsum; [|vm_compute in Hsum; discriminate].
  exists cnt. split; [reflexivity|].
  apply (summarize_bounds _ cnt Hsum).
Defined.

Lemma upper_lower_letter (c : ascii) :
  (ascii_upper c = "C"%char ↔ ascii_lower c = "c"%char)
  ∧ (ascii_upper c = "H"%char ↔ ascii_lower c = "h"%char)
  ∧ (ascii_upper c = "M"%char ↔ ascii_lower c = "m"%char)
  ∧ (ascii_upper c = "L"%char ↔ ascii_lower c = "l"%char).
Proof.
  destruct c as [[] [] [] [] [] [] [] []]; vm_compute;
    repeat split; intros H; try discriminate H; reflexivity.
Qed.

(** X13: a label is counted under a severity exactly when it is that
    severity's name up to the case of its ASCII letters: the comparison
    after [capitalize] is a case-insensitive comparison. *)
Theorem severity_match_ignores_case (s sev : string) :
  sev ∈ SEVERITIES →
  (capitalize s = sev ↔ lower s = lower sev).
Proof.
  intros Hsev. destruct s as [|c s].
  - unfold SEVERITIES in Hsev. rewrite !elem_of_cons, elem_of_nil in Hsev.
    destruct Hsev as [->|[->|[->|[->|[]]]]]; split; discriminate.
  - destruct (upper_lower_letter c) as (HC & HH & HM & HL).
    unfold SEVERITIES in Hsev. rewrite !elem_of_cons, elem_of_nil in Hsev.
    destruct Hsev as [->|[->|[->|[->|[]]]]]; simpl;
      (split; intros [= Hc Hs];
       [apply HC in Hc || apply HH in Hc || apply HM in Hc || apply HL in Hc
       |apply HC in Hc || apply HH in Hc || apply HM in Hc || apply HL in Hc];
       rewrite Hc, Hs; reflexivity).
Qed.

Lemma severity_match_ignores_case_witness :
  capitalize "mEDIUM" = "Medium" ↔ lower "mEDIUM" = lower "Medium".
Proof.
  apply (severity_match_ignores_case "mEDIUM" "Medium").
  unfold SEVERITIES. rewrite !elem_of_cons. tauto.
Defined.

(** X14: when the value under [matches] is not a list, the loop of
    [summarize] runs over what Python iterates: [null], a number or a
    boolean raise [TypeError]; an empty object or an empty string give the
    empty count; a non-empty object or string raise [AttributeError] at
    their first key or character. *)
Theorem summarize_non_list (v : json) :
  (∀ items, v ≠ JArray items) →
  summarize v
  = match v with
    | JObject [] | JString "" => Ok ∅
    | JObject _ | JString _ => Raise AttributeError
    | _ => Raise TypeError
    end.
Proof.
  intros Hnot. destruct v as [|b|lx|s|items|members]; try reflexivity.
  - destruct s as [|c s]; reflexivity.
  - exfalso. exact (Hnot items eq_refl).
  - destruct members as [|[k x] members]; [reflexivity|].
    unfold summarize, py_iter.
    assert (Hin : k ∈ remove_dups ((k, x) :: members).*1).
    { apply elem_of_remove_dups. rewrite fmap_cons. left. }
    destruct (remove_dups ((k, x) :: members).*1) as [|k' ks].
    + apply elem_of_nil in Hin. contradiction.
    + reflexivity.
Qed.

Lemma summarize_non_list_witness :
  summarize JNull = Raise TypeError
  ∧ summarize (JObject [("a", JNull)]) = Raise AttributeError.
Proof.
  split.
  - apply (summarize_non_list JNull). discriminate.
  - apply (summarize_non_list (JObject [("a", JNull)])). discriminate.
Defined.

(** * Further properties of a run *)

Lemma summarize_loop_exn (ms : list json) (cnt : gmap string Z) (e : exn) :
  summarize_loop ms cnt = Raise e → e = AttributeError.
Proof.
  intros Hloop. destruct (forallb finding_object ms) eqn:Hall.
  - destruct (summarize_loop_counts ms cnt Hall) as (cnt' & Hok & _).
    congruence.
  - rewrite (summarize_loop_malformed ms cnt Hall) in Hloop. congruence.
Qed.

Lemma summarize_exn (v : json) (e : exn) :
  summarize v = Raise e → e = AttributeError ∨ e = TypeError.
Proof.
  unfold summarize, py_iter.
  destruct v; try (intros [= <-]; auto);
    intros H; apply summarize_loop_exn in H; auto.
Qed.

(** An image whose scan or summary raises: which exceptions, and no
    warning. *)
Lemma image_counts_exn (w : world) (img : string) (e : exn) :
  image_counts w img = Raise e →
  (∀ code, e ≠ SystemExit code) ∧ warnings_of w img = [].
Proof.
  unfold image_counts, warnings_of, io0. rewrite !scan_image_run.
  destruct (exec w (grype_cmd img)) as [| |rc'|rc out]; simpl;
    try (intros [= <-]; split; [discriminate | reflexivity]).
  destruct (Z.eqb rc 0); simpl; [|discriminate].
  destruct (Json.loads out) as [data|]; simpl;
    [|intros [= <-]; split; [discriminate | reflexivity]].
  destruct (py_get data "matches" (JArray [])) as [v|e'] eqn:Hget.
  - intros H. apply summarize_exn in H.
    split; [|reflexivity]. destruct H as [-> | ->]; discriminate.
  - intros [= <-]. split; [|reflexivity].
    destruct data; try discriminate Hget; injection Hget as <-; discriminate.
Qed.

Lemma all_warnings_app (w : world) (xs ys : list string) :
  all_warnings w (xs ++ ys) = all_warnings w xs ++ all_warnings w ys.
Proof. unfold all_warnings. rewrite fmap_app, concat_app. reflexivity. Qed.

Lemma progress_lines_app (xs ys : list string) :
  progress_lines (xs ++ ys) = progress_lines xs ++ progress_lines ys.
Proof. unfold progress_lines. apply fmap_app. Qed.

(** The loop stops at the first image whose scan or summary raises. *)
Lemma main_loop_raises (w : world) (done rest : list string) (img : string)
    (e : exn) (total : gmap string Z) (per_image : list image_report)
    (st : io) :
  scans_complete w done → image_counts w img = Raise e →
  main_loop w (done ++ img :: rest) (total, per_image) st
  = (Raise e,
     Io (stdout_log st ++ progress_lines (done ++ [img]))
        (stderr_log st ++ all_warnings w done) (files st)).
Proof.
  intros Hdone Himg.
  rewrite main_loop_app, (main_loop_complete w done total per_image st Hdone).
  rewrite main_loop_cons, loop_body_counts, Himg.
  destruct (image_counts_exn w img e Himg) as [_ ->].
  cbn [stdout_log stderr_log files].
  rewrite progress_lines_app, app_nil_r, <- app_assoc. reflexivity.
Qed.

(** Either every image is scanned and summarised, or there is a first one
    that raises. *)
Lemma scans_complete_or_raise (w : world) (images : list string) :
  scans_complete w images
  ∨ ∃ done img rest e, images = done ++ img :: rest
      ∧ scans_complete w done ∧ image_counts w img = Raise e.
Proof.
  unfold scans_complete. induction images as [|img rest IH].
  - left. constructor.
  - destruct (image_counts w img) as [s|e] eqn:Himg.
    + destruct IH as [Hall|(done & i & r & e & -> & Hdone & Hi)].
      * left. constructor; [eauto | exact Hall].
      * right. exists (img :: done), i, r, e.
        split; [reflexivity|]. split; [|exact Hi].
        constructor; [eauto | exact Hdone].
    + right. exists [], img, rest, e. split; [reflexivity|].
      split; [constructor | exact Himg].
Qed.

Lemma run_scan_raises (w : world) (fs0 : gmap string string) (out : string)
    (done rest : list string) (img : string) (e : exn) :
  exec w kubectl_cmd = Completed 0 out →
  unique_images (splitlines out) = done ++ img :: rest →
  scans_complete w done → image_counts w img = Raise e →
  run w fs0
  = Outcome (Uncaught e) (progress_lines (done ++ [img]))
            (all_warnings w done) fs0.
Proof.
  intros Hexec Himages Hdone Himg.
  unfold run, main, bind. rewrite get_unique_images_run, Hexec. simpl.
  rewrite Himages.
  destruct (done ++ img :: rest) as [|i l] eqn:Hlist;
    [destruct done; discriminate|].
  rewrite <- Hlist, (main_loop_raises w done rest img e ∅ [] _ Hdone Himg).
  simpl. destruct (image_counts_exn w img e Himg) as [Hexit _].
  destruct e; try reflexivity. exfalso. exact (Hexit code eq_refl).
Qed.

(** Either the run reaches the end of the loop, or it ends before with
    exit code 1, having printed progress lines only and touched no file. *)
Lemma run_cases (w : world) (fs0 : gmap string string) :
  loop_completes w
  ∨ (exit_code (run w fs0) = 1
     ∧ status (run w fs0) ≠ Exited 0
     ∧ fs (run w fs0) = fs0
     ∧ ∃ images, out (run w fs0) = progress_lines images).
Proof.
  assert (Hstop : ∀ e, (∀ code, e ≠ SystemExit code) →
            get_unique_images w (Io [] [] fs0) = (Raise e, Io [] [] fs0) →
            exit_code (run w fs0) = 1 ∧ status (run w fs0) ≠ Exited 0
            ∧ fs (run w fs0) = fs0
            ∧ ∃ images, out (run w fs0) = progress_lines images).
  { intros e He Hget. unfold run, main, bind. rewrite Hget.
    destruct e; try (exfalso; exact (He _ eq_refl)); simpl;
      (split; [reflexivity|]; split; [discriminate|];
       split; [reflexivity|]; exists []; reflexivity). }
  pose proof (get_unique_images_run w (Io [] [] fs0)) as Hget.
  destruct (exec w kubectl_cmd) as [| |rc'|rc out] eqn:Hexec.
  1-3: right; eapply Hstop; [|exact Hget]; discriminate.
  destruct (Z.eqb_spec rc 0) as [->|Hrc];
    [|right; eapply Hstop; [|exact Hget]; discriminate].
  destruct (unique_images (splitlines out)) as [|i l] eqn:Himages.
  { right. unfold run, main, bind. rewrite Hget. simpl.
    split; [reflexivity|]. split; [discriminate|].
    split; [reflexivity|]. exists []. reflexivity. }
  destruct (scans_complete_or_raise w (i :: l))
    as [Hall|(done & img & rest & e & Hsplit & Hdone & Himg)].
  - left. exists out. rewrite Himages. split; [exact Hexec|].
    split; [discriminate | exact Hall].
  - right. rewrite <- Himages in Hsplit.
    rewrite (run_scan_raises w fs0 out done rest img e Hexec Hsplit Hdone Himg).
    simpl. split; [reflexivity|]. split; [discriminate|].
    split; [reflexivity|]. eauto.
Qed.




(** X17: whatever the world does, a run changes no file but
    [grype-per-image-report.csv]. *)
Theorem run_other_files_untouched (w : world) (fs0 : gmap string string)
    (path : string) :
  path ≠ csv_file → fs (run w fs0) !! path = fs0 !! path.
Proof.
  intros Hpath.
  destruct (run_cases w fs0)
    as [(out & Hexec & Hne & Hall)|(_ & _ & -> & _)]; [|reflexivity].
  rewrite (run_complete w fs0 out Hexec Hne Hall).
  destruct (open_w w csv_file); simpl; [|reflexivity|];
    apply lookup_insert_ne; congruence.
Qed.

Lemma run_other_files_untouched_witness :
  let w := cluster (Completed 0 (unlines ["redis:7"]))
             [("redis:7", Completed 0 "{}")] Writable in
  fs (run w {[ "notes.txt" := "keep" ]}) !! "notes.txt"
  = ({[ "notes.txt" := "keep" ]} : gmap string string) !! "notes.txt".
Proof.
  intros w. apply (run_other_files_untouched w). discriminate.
Defined.



Lemma sum_counts_rows (w : world) (images : list string) :
  sum_counts "Critical" (counts_of w <$> images)
  = sum_of Critical (report_row w <$> images)
  ∧ sum_counts "High" (counts_of w <$> images)
    = sum_of High (report_row w <$> images)
  ∧ sum_counts "Medium" (counts_of w <$> images)
    = sum_of Medium (report_row w <$> images)
  ∧ sum_counts "Low" (counts_of w <$> images)
    = sum_of Low (report_row w <$> images).
Proof.
  unfold sum_counts, sum_of.
  induction images as [|img rest (HC & HH & HM & HL)]; [repeat split|].
  rewrite !fmap_cons. simpl foldr. rewrite HC, HH, HM, HL.
  repeat split; reflexivity.
Qed.

Lemma count_final_total (w : world) (images : list string) (sev : string) :
  sev ∈ SEVERITIES →
  count (final_total w images) sev = sum_counts sev (counts_of w <$> images).
Proof.
  intros Hsev. unfold final_total, count at 1.
  rewrite lookup_foldl_accumulate.
  destruct (counts_of w <$> images) as [|s l]; [reflexivity|].
  rewrite decide_True by exact Hsev. rewrite count_empty. reflexivity.
Qed.

(** X19: in a run that reaches the end of the loop, standard output holds
    one progress line per image in scan order, then the title and the
    grid; the grid's single row is, column by column, the sum of the rows
    of the report; the completion line follows exactly when the file was
    written. *)
Theorem summary_is_column_sums (w : world) (fs0 : gmap string string)
    (out : string) :
  let images := unique_images (splitlines out) in
  let rows := report_row w <$> images in
  exec w kubectl_cmd = Completed 0 out →
  images ≠ [] →
  scans_complete w images →
  KubeScan.out (run w fs0)
  = progress_lines images
    ++ [Line summary_title;
        Grid ["Critical"; "High"; "Medium"; "Low"]
             [[sum_of Critical rows; sum_of High rows;
               sum_of Medium rows; sum_of Low rows]]]
    ++ match open_w w csv_file with
       | Writable => [Line done_line]
       | _ => []
       end.
Proof.
  intros images rows Hexec Hne Hall.
  rewrite (run_complete w fs0 out Hexec Hne Hall).
  destruct four_severities as (IC & IH & IM & IL).
  destruct (sum_counts_rows w images) as (HC & HH & HM & HL).
  unfold summary_grid. fold images.
  rewrite !count_final_total by assumption. rewrite HC, HH, HM, HL.
  fold rows.
  destruct (open_w w csv_file); cbn [KubeScan.out];
    rewrite <- ?app_assoc, ?app_nil_r; reflexivity.
Qed.

Lemma summary_is_column_sums_witness :
  let out := unlines ["a:1"; "b:2"] in
  let w := cluster (Completed 0 out)
             [("a:1", Completed 0 (grype_json ["Critical"; "medium"; "Medium"]));
              ("b:2", Completed 0 (grype_json ["high"; "Low"; "High"; "HIGH"]))]
             Writable in
  KubeScan.out (run w ∅)
  = [Line (progress "a:1"); Line (progress "b:2"); Line summary_title;
     Grid ["Critical"; "High"; "Medium"; "Low"] [[1; 3; 2; 1]];
     Line done_line].
Proof.
  intros out w.
  assert (Hne : unique_images (splitlines out) ≠ []) by (vm_compute; discriminate).
  assert (Hall : scans_complete w (unique_images (splitlines out))).
  { let l := eval vm_compute in (unique_images (splitlines out)) in
    change (unique_images (splitlines out)) with l.
    repeat constructor; eexists; vm_compute; reflexivity. }
  rewrite (summary_is_column_sums w ∅ out eq_refl Hne Hall).
  vm_compute. reflexivity.
Defined.

Lemma warnings_of_exits (w : world) (img : string) :
  warnings_of w img = if exits_nonzero w img then [scan_warning img] else [].
Proof.
  unfold warnings_of, exits_nonzero. rewrite scan_image_run.
  destruct (exec w (grype_cmd img)) as [| |rc'|rc out]; try reflexivity.
  destruct (Z.eqb rc 0); simpl; [|reflexivity].
  destruct (Json.loads out); reflexivity.
Qed.

Lemma all_warnings_filter (w : world) (images : list string) :
  all_warnings w images
  = scan_warning <$> List.filter (exits_nonzero w) images.
Proof.
  unfold all_warnings. induction images as [|img rest IH]; [reflexivity|].
  rewrite fmap_cons. simpl concat. simpl List.filter.
  rewrite IH, warnings_of_exits.
  destruct (exits_nonzero w img); reflexivity.
Qed.

(** X20: in a run that reaches the end of the loop, the diagnostic stream
    holds exactly the warnings of the images whose scanner exited with a
    non-zero code, one each, in scan order, and nothing else. *)
Theorem stderr_is_failed_scans (w : world) (fs0 : gmap string string)
    (out : string) :
  let images := unique_images (splitlines out) in
  exec w kubectl_cmd = Completed 0 out →
  images ≠ [] →
  scans_complete w images →
  err (run w fs0) = scan_warning <$> List.filter (exits_nonzero w) images.
Proof.
  intros images Hexec Hne Hall.
  rewrite (run_complete w fs0 out Hexec Hne Hall).
  rewrite <- all_warnings_filter.
  destruct (open_w w csv_file); reflexivity.
Qed.

Lemma stderr_is_failed_scans_witness :
  let out := unlines ["a:1"; "b:2"; "c:3"] in
  let w := cluster (Completed 0 out)
             [("a:1", Completed 1 ""); ("b:2", Completed 0 "{}");
              ("c:3", Completed 2 "{}")] OpenFails in
  err (run w ∅) = [scan_warning "a:1"; scan_warning "c:3"].
Proof.
  intros out w.
  assert (Hne : unique_images (splitlines out) ≠ []) by (vm_compute; discriminate).
  assert (Hall : scans_complete w (unique_images (splitlines out))).
  { let l := eval vm_compute in (unique_images (splitlines out)) in
    change (unique_images (splitlines out)) with l.
    repeat constructor; eexists; vm_compute; reflexivity. }
  rewrite (stderr_is_failed_scans w ∅ out eq_refl Hne Hall).
  vm_compute. reflexivity.
Defined.

Lemma main_loop_ok_complete (w : world) (images : list string)
    (acc acc' : loop_state) (st st' : io) :
  main_loop w images acc st = (Ok acc', st') → scans_complete w images.
Proof.
  intros Hloop. destruct acc as [total per_image].
  destruct (scans_complete_or_raise w images)
    as [Hall|(done & img & rest & e & -> & Hdone & Himg)]; [exact Hall|].
  rewrite (main_loop_raises w done rest img e total per_image st Hdone Himg)
    in Hloop.
  discriminate.
Qed.

Lemma summarize_nonneg (v : json) (s : gmap string Z) (sev : string) :
  summarize v = Ok s → 0 ≤ count s sev.
Proof.
  unfold summarize. destruct (py_iter v) as [ms|e]; [|discriminate].
  intros Hloop. unfold count.
  rewrite (summarize_loop_lookup ms ∅ s sev Hloop), count_empty, lookup_empty.
  pose proof (occurrences_nonneg sev ms) as Hnn.
  case_decide;
    [change (0 ≤ 0 + occurrences sev ms) | change (0 ≤ 0)]; lia.
Qed.

Lemma counts_of_nonneg (w : world) (img sev : string) :
  0 ≤ count (counts_of w img) sev.
Proof.
  unfold counts_of. destruct (image_counts w img) as [s|e] eqn:Himg.
  - unfold image_counts in Himg.
    destruct (scan_image w img (Io [] [] ∅)).1 as [v|e]; [|discriminate].
    exact (summarize_nonneg v s sev Himg).
  - rewrite count_empty. lia.
Qed.

Lemma sum_counts_nonneg (w : world) (images : list string) (sev : string) :
  0 ≤ sum_counts sev (counts_of w <$> images).
Proof.
  unfold sum_counts. induction images as [|img rest IH]; [simpl; lia|].
  rewrite fmap_cons. cbn [foldr].
  pose proof (counts_of_nonneg w img sev). lia.
Qed.

(** X21: at every point of the loop the counts are well formed: no count
    of the running total or of a report row is negative, and the running
    total holds no key besides the four severities. *)
Theorem loop_counts_nonneg (w : world) (done : list string)
    (total : gmap string Z) (per_image : list image_report) (st0 st : io) :
  main_loop w done (∅, []) st0 = (Ok (total, per_image), st) →
  (∀ sev, 0 ≤ count total sev)
  ∧ (∀ k, k ∉ SEVERITIES → total !! k = None)
  ∧ Forall (λ r, 0 ≤ Critical r ∧ 0 ≤ High r ∧ 0 ≤ Medium r ∧ 0 ≤ Low r)
           per_image.
Proof.
  intros Hloop.
  pose proof (main_loop_ok_complete w done _ _ _ _ Hloop) as Hall.
  rewrite (main_loop_complete w done ∅ [] st0 Hall) in Hloop.
  injection Hloop as <- <- _.
  assert (Hlookup : ∀ k, foldl accumulate ∅ (counts_of w <$> done) !! k
            = match done with
              | [] => None
              | _ :: _ =>
                  if decide (k ∈ SEVERITIES)
                  then Some (sum_counts k (counts_of w <$> done)) else None
              end).
  { intros k. rewrite lookup_foldl_accumulate, count_empty, lookup_empty.
    destruct done; reflexivity. }
  split; [|split].
  - intros sev. unfold count. rewrite Hlookup.
    pose proof (sum_counts_nonneg w done sev).
    destruct done; [simpl; lia|].
    case_decide; cbn [from_option]; unfold id; lia.
  - intros k Hk. rewrite Hlookup. destruct done; [reflexivity|].
    rewrite decide_False by exact Hk. reflexivity.
  - simpl. clear. induction done as [|img rest IH]; [constructor|].
    rewrite fmap_cons. constructor; [|exact IH].
    unfold report_row, report_of; simpl.
    repeat split; apply counts_of_nonneg.
Qed.

Lemma loop_counts_nonneg_witness :
  let w := cluster (Completed 0 (unlines ["a:1"; "b:2"]))
             [("a:1", Completed 0 (grype_json ["low"; "odd"]));
              ("b:2", Completed 4 "")] Writable in
  ∃ total per_image st,
    main_loop w ["a:1"; "b:2"] (∅, []) io0 = (Ok (total, per_image), st)
    ∧ ∀ sev, 0 ≤ count total sev.
Proof.
  intros w.
  destruct (main_loop w ["a:1"; "b:2"] (∅, []) io0)
    as [[[total per_image]|e] st] eqn:Hloop; [|vm_compute in Hloop; discriminate].
  exists total, per_image, st. split; [reflexivity|].
  apply (loop_counts_nonneg w _ total per_image io0 st Hloop).
Defined.

(** X22: the report file of a completed run is, as text, the header line
    followed by one line for each distinct non-empty line the inventory
    query printed and by nothing else, and these lines come in the order
    of the image references, the collector's order. *)
Theorem report_rows_sorted_unique (w : world) (fs0 : gmap string string)
    (out : string) :
  exec w kubectl_cmd = Completed 0 out →
  unique_images (splitlines out) ≠ [] →
  scans_complete w (unique_images (splitlines out)) →
  open_w w csv_file = Writable →
  ∃ images,
    fs (run w fs0) !! csv_file
    = Some (text_of_lines
              (("Image,Critical,High,Medium,Low" +:+ CRLF)
                 :: (report_line w <$> images)))
    ∧ StronglySorted String.le images
    ∧ NoDup images
    ∧ (∀ x, x ∈ images ↔ x ∈ splitlines out ∧ x ≠ "").
Proof.
  intros Hexec Hne Hall Hopen.
  exists (unique_images (splitlines out)).
  rewrite (run_complete w fs0 out Hexec Hne Hall), Hopen. cbn [fs].
  destruct (unique_images_sorted_set_parts (splitlines out))
    as (_ & Hnd & Hss & Hin).
  split; [|split; [exact Hss | split; [exact Hnd | exact Hin]]].
  rewrite lookup_insert_eq, csv_text_report_lines. reflexivity.
Qed.

Lemma report_rows_sorted_unique_witness :
  let out := unlines ["b:2"; "a:1"; "b:2"] in
  let w := cluster (Completed 0 out)
             [("a:1", Completed 0 "{}"); ("b:2", Completed 1 "")] Writable in
  ∃ images,
    fs (run w ∅) !! csv_file
    = Some (text_of_lines
              (("Image,Critical,High,Medium,Low" +:+ CRLF)
                 :: (report_line w <$> images)))
    ∧ StronglySorted String.le images.
Proof.
  intros out w.
  assert (Hne : unique_images (splitlines out) ≠ []) by (vm_compute; discriminate).
  assert (Hall : scans_complete w (unique_images (splitlines out))).
  { let l := eval vm_compute in (unique_images (splitlines out)) in
    change (unique_images (splitlines out)) with l.
    repeat constructor; eexists; vm_compute; reflexivity. }
  destruct (report_rows_sorted_unique w ∅ out eq_refl Hne Hall eq_refl)
    as (images & Hfile & Hsorted & _).
  exists images. split; [exact Hfile | exact Hsorted].
Defined.

(** * Lines of the report file *)

Lemma any_char_rev_app (p : ascii → bool) (s t : string) :
  Csv.any_char p (String.rev_app s t) = (Csv.any_char p s || Csv.any_char p t)%bool.
Proof.
  revert t. induction s as [|c s IH]; intros t; [reflexivity|].
  simpl. rewrite IH. simpl.
  destruct (p c), (Csv.any_char p s), (Csv.any_char p t); reflexivity.
Qed.

Lemma any_char_rev (p : ascii → bool) (s : string) :
  Csv.any_char p (String.rev s) = Csv.any_char p s.
Proof.
  unfold String.rev. rewrite any_char_rev_app. simpl. apply orb_false_r.
Qed.

(** One step of [splitlines_go]. *)
Lemma splitlines_go_eq (c : ascii) (s' cur : string) (pending : bool) :
  splitlines_go (String c s') cur pending
  = if Ascii.eqb c CR then
      match s' with
      | String c' s'' =>
          if Ascii.eqb c' LF
          then String.rev cur :: splitlines_go s'' "" false
          else String.rev cur :: splitlines_go s' "" false
      | EmptyString => [String.rev cur]
      end
    else if is_ascii_linebreak c then
      String.rev cur :: splitlines_go s' "" false
    else
      match c, s' with
      | "194"%char, String "133"%char s'' =>
          String.rev cur :: splitlines_go s'' "" false
      | "226"%char, String "128"%char (String c3 s3) =>
          if (Ascii.eqb c3 "168" || Ascii.eqb c3 "169")%char
          then String.rev cur :: splitlines_go s3 "" false
          else splitlines_go s' (String c cur) true
      | _, _ => splitlines_go s' (String c cur) true
      end.
Proof. reflexivity. Qed.

Ltac eval_char_tests :=
  repeat match goal with
  | |- context [Ascii.eqb (Ascii ?a ?b ?c ?d ?e ?f ?g ?h) ?x] =>
      let t := constr:(Ascii.eqb (Ascii a b c d e f g h) x) in
      let v := eval vm_compute in t in change t with v
  | |- context [is_ascii_linebreak (Ascii ?a ?b ?c ?d ?e ?f ?g ?h)] =>
      let t := constr:(is_ascii_linebreak (Ascii a b c d e f g h)) in
      let v := eval vm_compute in t in change t with v
  | |- context [is_break_char (Ascii ?a ?b ?c ?d ?e ?f ?g ?h)] =>
      let t := constr:(is_break_char (Ascii a b c d e f g h)) in
      let v := eval vm_compute in t in change t with v
  end.

Ltac splitlines_case IH :=
  try rewrite splitlines_go_eq;
  eval_char_tests;
  cbn -[splitlines_go String.rev];
  repeat first
    [ assumption
    | match goal with
      | |- Forall _ [] => constructor
      | |- Forall _ (_ :: _) => constructor
      | |- Forall _ (if ?b then _ else _) => destruct b
      | |- Forall _ (splitlines_go "" _ _) => simpl
      | |- Forall _ (splitlines_go _ _ _) =>
          apply IH; [simpl in *; lia | simpl; try assumption; reflexivity]
      | |- Csv.any_char _ (String.rev _) = false => rewrite any_char_rev
      | |- Csv.any_char _ (String _ _) = false =>
          cbn [Csv.any_char]; eval_char_tests; cbn [orb]
      end ].

(** No line that [splitlines] returns holds a carriage return or a line
    feed. *)
Lemma splitlines_go_no_break (n : nat) (s cur : string) (pending : bool) :
  (String.length s ≤ n)%nat →
  Csv.any_char is_break_char cur = false →
  Forall (λ l, Csv.any_char is_break_char l = false)
         (splitlines_go s cur pending).
Proof.
  revert s cur pending. induction n as [|n IH]; intros s cur pending Hn Hcur.
  - destruct s; [|simpl in Hn; lia]. splitlines_case IH.
  - destruct s as [|c s]; [splitlines_case IH|].
    destruct c as [[] [] [] [] [] [] [] []];
      try (splitlines_case IH; fail).
    all: destruct s as [|c' s]; [splitlines_case IH; fail|].
    all: try (splitlines_case IH; fail).
    all: destruct c' as [[] [] [] [] [] [] [] []];
      try (splitlines_case IH; fail).
    all: destruct s as [|c3 s]; [splitlines_case IH; fail|].
    all: splitlines_case IH.
Qed.

Lemma splitlines_no_break (s : string) :
  Forall (λ l, Csv.any_char is_break_char l = false) (splitlines s).
Proof. apply (splitlines_go_no_break (String.length s)); [lia | reflexivity]. Qed.

Lemma count_char_app (c : ascii) (a b : string) :
  count_char c (a +:+ b) = (count_char c a + count_char c b)%nat.
Proof.
  induction a as [|x a IH]; [reflexivity|].
  change (String x a +:+ b) with (String x (a +:+ b)).
  simpl. rewrite IH. lia.
Qed.

Lemma any_char_count (p : ascii → bool) (c : ascii) (s : string) :
  p c = true → Csv.any_char p s = false → count_char c s = O.
Proof.
  intros Hc. induction s as [|x s IH]; [reflexivity|]. simpl.
  intros Hs. apply orb_false_iff in Hs as [Hx Hs].
  rewrite (IH Hs). destruct (Ascii.eqb_spec x c) as [->|_]; [congruence | reflexivity].
Qed.

Lemma break_char_cases (c : ascii) :
  is_break_char c = true → c = CR ∨ c = LF.
Proof.
  unfold is_break_char. intros H. apply orb_true_iff in H as [H|H];
    apply Ascii.eqb_eq in H; auto.
Qed.

Lemma count_char_cons (c x : ascii) (s : string) :
  count_char c (String x s)
  = ((if Ascii.eqb x c then 1 else 0) + count_char c s)%nat.
Proof. reflexivity. Qed.

Lemma count_char_double_quotes (c : ascii) (s : string) :
  Ascii.eqb DQUOTE c = false →
  count_char c (Csv.double_quotes s) = count_char c s.
Proof.
  intros Hq. induction s as [|x s IH]; [reflexivity|].
  cbn [Csv.double_quotes].
  destruct (Ascii.eqb_spec x DQUOTE) as [->|_];
    rewrite !count_char_cons, IH, ?Hq; reflexivity.
Qed.

Lemma count_char_field (c : ascii) (s : string) :
  is_break_char c = true → count_char c (Csv.field s) = count_char c s.
Proof.
  intros Hc.
  assert (Hq : Ascii.eqb DQUOTE c = false)
    by (destruct (break_char_cases c Hc) as [-> | ->]; reflexivity).
  unfold Csv.field. destruct (Csv.any_char Csv.needs_quote s); [|reflexivity].
  rewrite count_char_cons, count_char_app, count_char_cons, Hq,
    (count_char_double_quotes c s Hq).
  change (count_char c "") with O. lia.
Qed.

Lemma str_quote_free (n : Z) : Csv.any_char Csv.needs_quote (str n) = false.
Proof.
  assert (HN : ∀ x : N, Csv.any_char Csv.needs_quote (pretty x) = false).
  { intros x. unfold pretty, pretty_N. case_decide; [reflexivity|].
    rewrite quote_free_pretty_N_go. reflexivity. }
  unfold str, pretty, pretty_Z. destruct n as [|p|p].
  - reflexivity.
  - apply HN.
  - change (Csv.any_char Csv.needs_quote (String "-" (pretty (Npos p))) = false).
    simpl. apply HN.
Qed.

Lemma count_char_str (c : ascii) (n : Z) :
  is_break_char c = true → count_char c (str n) = O.
Proof.
  intros Hc. apply (any_char_count Csv.needs_quote); [|apply str_quote_free].
  destruct (break_char_cases c Hc) as [-> | ->]; reflexivity.
Qed.

Lemma count_char_row (c : ascii) (r : image_report) :
  is_break_char c = true →
  count_char c (Csv.writerow (row_fields r)) = S (count_char c (Image r)).
Proof.
  intros Hc. rewrite writerow_report, !count_char_app.
  rewrite count_char_field, !count_char_str by exact Hc.
  destruct (break_char_cases c Hc) as [-> | ->]; simpl; lia.
Qed.

Lemma count_char_csv_text (c : ascii) (rows : list image_report) :
  is_break_char c = true →
  Forall (λ r, Csv.any_char is_break_char (Image r) = false) rows →
  count_char c (csv_text rows) = S (length rows).
Proof.
  intros Hc Hrows. unfold csv_text. rewrite count_char_app.
  assert (Hhead : count_char c (Csv.writerow fieldnames) = 1%nat)
    by (destruct (break_char_cases c Hc) as [-> | ->]; reflexivity).
  rewrite Hhead. f_equal.
  induction Hrows as [|r rows Hr _ IH]; [reflexivity|].
  rewrite fmap_cons. unfold Csv.writerows in *. cbn [foldr].
  rewrite count_char_app, IH, (count_char_row c r Hc).
  rewrite (any_char_count is_break_char c (Image r) Hc Hr). reflexivity.
Qed.

(** X23: every row of the report takes exactly one line: a reference that
    comes out of [splitlines] holds no line break, so the file of a
    completed run holds as many carriage returns, and as many line feeds,
    as it has images, and one more for the header. *)
Theorem report_one_line_per_image (w : world) (fs0 : gmap string string)
    (out : string) :
  exec w kubectl_cmd = Completed 0 out →
  unique_images (splitlines out) ≠ [] →
  scans_complete w (unique_images (splitlines out)) →
  open_w w csv_file = Writable →
  ∃ text, fs (run w fs0) !! csv_file = Some text
    ∧ count_char LF text = S (length (unique_images (splitlines out)))
    ∧ count_char CR text = S (length (unique_images (splitlines out))).
Proof.
  intros Hexec Hne Hall Hopen.
  exists (csv_text (report_row w <$> unique_images (splitlines out))).
  rewrite (run_complete w fs0 out Hexec Hne Hall), Hopen. cbn [fs].
  split; [apply lookup_insert_eq|].
  assert (Hrows : Forall (λ r, Csv.any_char is_break_char (Image r) = false)
                    (report_row w <$> unique_images (splitlines out))).
  { apply Forall_fmap, Forall_forall. intros img Himg. simpl.
    apply elem_of_unique_images in Himg as [Hin _].
    pose proof (splitlines_no_break out) as Hlines.
    rewrite Forall_forall in Hlines. exact (Hlines img Hin). }
  rewrite (count_char_csv_text LF _ eq_refl Hrows).
  rewrite (count_char_csv_text CR _ eq_refl Hrows).
  rewrite length_fmap. split; reflexivity.
Qed.

Lemma report_one_line_per_image_witness :
  let out := unlines ["b:2"; "a:1"] in
  let w := cluster (Completed 0 out)
             [("a:1", Completed 0 "{}"); ("b:2", Completed 1 "")] Writable in
  ∃ text, fs (run w ∅) !! csv_file = Some text ∧ count_char LF text = 3%nat.
Proof.
  intros out w.
  assert (Hne : unique_images (splitlines out) ≠ []) by (vm_compute; discriminate).
  assert (Hall : scans_complete w (unique_images (splitlines out))).
  { let l := eval vm_compute in (unique_images (splitlines out)) in
    change (unique_images (splitlines out)) with l.
    repeat constructor; eexists; vm_compute; reflexivity. }
  destruct (report_one_line_per_image w ∅ out eq_refl Hne Hall eq_refl)
    as (text & Hfile & Hlf & _).
  exists text. split; [exact Hfile|]. rewrite Hlf. vm_compute. reflexivity.
Defined.
